(** * MineSweeper-Python: the board engine of [game_logic.py]

    A shallow embedding of [MinesweeperLogic] (game_logic.py), of the
    logic-visible part of [MinesweeperGUI] (gui.py: the click handler, the
    win test and the difficulties) and of the table of [HighScores]
    (high_score.py), followed by the properties of the specification
    checked against it and by further properties read off the code.

    Python integers are unbounded, hence [Z]; a Python [set] of coordinate
    tuples is a [gset (Z * Z)]; the grid is a list of rows, indexed the way
    Python indexes lists (negative indices count from the end, everything
    else outside the list raises [IndexError]). *)

From stdpp Require Import gmap list strings pretty sorting.
From Stdlib Require Import ZArith Lia.

Local Open Scope Z_scope.

(** ** Values shared by all operations *)

(** A coordinate tuple [(x, y)]. *)
Abbreviation cell := (Z * Z)%type.

(** The exceptions the engine can raise. *)
Inductive exn : Set :=
| IndexError
| ValueError
| KeyError.

(** The outcome of a call: a returned value, a raised exception, or — for
    the one [while] loop of the engine, which the model runs on a step
    budget — an exhausted budget.  [reveal_square_terminates] shows that
    the last case never happens. *)
Inductive outcome (A : Type) : Type :=
| Ret (a : A)
| Exc (e : exn)
| NoFuel.
Arguments Ret {A} a.
Arguments Exc {A} e.
Arguments NoFuel {A}.

(** ** Python list indexing *)

(** [l[i]] as an index into the list, or [None] where Python raises
    [IndexError]. *)
Definition py_index {A} (l : list A) (i : Z) : option nat :=
  let n := Z.of_nat (length l) in
  if (0 <=? i) && (i <? n) then Some (Z.to_nat i)
  else if (- n <=? i) && (i <? 0) then Some (Z.to_nat (n + i))
  else None.

(** [l[i]] *)
Definition py_get {A} (l : list A) (i : Z) : option A :=
  match py_index l i with
  | Some k => l !! k
  | None => None
  end.

(** [l[i] = v] *)
Definition py_set {A} (l : list A) (i : Z) (v : A) : option (list A) :=
  match py_index l i with
  | Some k => Some (<[k := v]> l)
  | None => None
  end.

(** [grid[y][x]] *)
Definition grid_get (grid : list (list Z)) (x y : Z) : option Z :=
  match py_get grid y with
  | Some row => py_get row x
  | None => None
  end.

(** [grid[y][x] = v]: the row is fetched first, then written in place. *)
Definition grid_set (grid : list (list Z)) (x y v : Z) : option (list (list Z)) :=
  match py_index grid y with
  | Some j =>
      match grid !! j with
      | Some row =>
          match py_set row x v with
          | Some row' => Some (<[j := row']> grid)
          | None => None
          end
      | None => None
      end
  | None => None
  end.

(** [range(n)] *)
Definition range (n : Z) : list Z := Z.of_nat <$> seq 0 (Z.to_nat n).

(** ** The board *)

(** The attributes of a [MinesweeperLogic] object. *)
Record board : Type := Board {
  width : Z;
  height : Z;
  num_mines : Z;
  grid : list (list Z);
  mine_positions : gset cell;
  first_move : bool;
  revealed : gset cell;
  flagged : gset cell;
  game_over : bool;
  won : bool;
  time_started : option Z;
  game_time : Z;
  mines_remaining : Z
}.

Definition set_grid (g : list (list Z)) (b : board) : board :=
  Board (width b) (height b) (num_mines b) g (mine_positions b) (first_move b)
        (revealed b) (flagged b) (game_over b) (won b) (time_started b)
        (game_time b) (mines_remaining b).

Definition set_mine_positions (m : gset cell) (b : board) : board :=
  Board (width b) (height b) (num_mines b) (grid b) m (first_move b)
        (revealed b) (flagged b) (game_over b) (won b) (time_started b)
        (game_time b) (mines_remaining b).

Definition set_first_move (f : bool) (b : board) : board :=
  Board (width b) (height b) (num_mines b) (grid b) (mine_positions b) f
        (revealed b) (flagged b) (game_over b) (won b) (time_started b)
        (game_time b) (mines_remaining b).

Definition set_revealed (r : gset cell) (b : board) : board :=
  Board (width b) (height b) (num_mines b) (grid b) (mine_positions b)
        (first_move b) r (flagged b) (game_over b) (won b) (time_started b)
        (game_time b) (mines_remaining b).

Definition set_flagged (f : gset cell) (remaining : Z) (b : board) : board :=
  Board (width b) (height b) (num_mines b) (grid b) (mine_positions b)
        (first_move b) (revealed b) f (game_over b) (won b) (time_started b)
        (game_time b) remaining.

Definition set_time_started (t : option Z) (b : board) : board :=
  Board (width b) (height b) (num_mines b) (grid b) (mine_positions b)
        (first_move b) (revealed b) (flagged b) (game_over b) (won b) t
        (game_time b) (mines_remaining b).

(** [initialize_grid]: [height] rows of [width] zeros. *)
Definition initialize_grid (w h : Z) : list (list Z) :=
  (λ _, (λ _, 0) <$> range w) <$> range h.

(** [MinesweeperLogic(width, height, num_mines)] *)
Definition new_board (w h n : Z) : board :=
  Board w h n (initialize_grid w h) ∅ true ∅ ∅ false false None 0 n.

(** ** Neighbours *)

Definition in_grid (w h : Z) (c : cell) : bool :=
  (0 <=? c.1) && (c.1 <? w) && (0 <=? c.2) && (c.2 <? h).

Definition offsets : list Z := [-1; 0; 1].

(** [get_adjacent_squares]: the two nested loops over [dx] and [dy], which
    keep an offset when the moved coordinate is inside the grid and the
    offset is not [(0, 0)]. *)
Definition adjacent_squares (w h x y : Z) : list cell :=
  dx ← offsets;
  dy ← offsets;
  let new_x := x + dx in
  let new_y := y + dy in
  if (0 <=? new_x) && (new_x <? w) && (0 <=? new_y) && (new_y <? h)
     && negb ((dx =? 0) && (dy =? 0))
  then [(new_x, new_y)] else [].

Definition get_adjacent_squares (b : board) (x y : Z) : list cell :=
  adjacent_squares (width b) (height b) x y.

(** [count_adjacent_mines]: the same two loops, adding one for every kept
    offset whose cell is in [mine_positions]. *)
Definition count_mines (w h : Z) (mines : gset cell) (x y : Z) : Z :=
  foldl (λ count dx,
    foldl (λ count dy,
      let new_x := x + dx in
      let new_y := y + dy in
      if (0 <=? new_x) && (new_x <? w) && (0 <=? new_y) && (new_y <? h)
         && negb ((dx =? 0) && (dy =? 0))
         && bool_decide ((new_x, new_y) ∈ mines)
      then count + 1 else count) count offsets) 0 offsets.

Definition count_adjacent_mines (b : board) (x y : Z) : Z :=
  count_mines (width b) (height b) (mine_positions b) x y.

(** [is_mine] *)
Definition is_mine (b : board) (x y : Z) : bool :=
  bool_decide ((x, y) ∈ mine_positions b).

(** [get_value] *)
Definition get_value (b : board) (x y : Z) : outcome Z :=
  match grid_get (grid b) x y with
  | Some v => Ret v
  | None => Exc IndexError
  end.

(** ** Flagging *)

(** [toggle_flag]: the new board and the returned boolean. *)
Definition toggle_flag (b : board) (x y : Z) : board * bool :=
  if bool_decide ((x, y) ∈ revealed b) then (b, false)
  else if bool_decide ((x, y) ∈ flagged b)
  then (set_flagged (flagged b ∖ {[(x, y)]}) (mines_remaining b + 1) b, false)
  else (set_flagged ({[(x, y)]} ∪ flagged b) (mines_remaining b - 1) b, true).

(** ** Revealing *)

(** The local variables of the flood loop of [reveal_square], together with
    the [revealed] attribute it updates while it runs. *)
Record flood_state : Type := FloodState {
  fs_stack : list cell;
  fs_revealed : gset cell;
  fs_newly : gset cell
}.

(** [stack.pop()]: removes and returns the last element. *)
Definition stack_pop (l : list cell) : option (cell * list cell) :=
  match reverse l with
  | [] => None
  | c :: r => Some (c, reverse r)
  end.

(** The frontier discipline the specification mentions as the alternative:
    a queue, served from the front ([popleft]). *)
Definition queue_pop (l : list cell) : option (cell * list cell) :=
  match l with
  | [] => None
  | c :: r => Some (c, r)
  end.

(** What the loop needs from a frontier discipline: it hands out one
    element of the frontier and keeps the others. *)
Definition pop_ok (pop : list cell → option (cell * list cell)) : Prop :=
  ∀ l, match pop l with
       | None => l = []
       | Some (c, r) => l ≡ₚ c :: r
       end.

(** The body of the [for adj_x, adj_y in get_adjacent_squares(...)] loop,
    run over the neighbour list.  A neighbour that is neither revealed nor
    flagged is added to [revealed] and to [newly_revealed] first; only then
    is its grid value read, so an [IndexError] leaves it added. *)
Fixpoint visit_adjacent (g : list (list Z)) (fl : gset cell)
    (adjs : list cell) (st : flood_state) : flood_state * outcome unit :=
  match adjs with
  | [] => (st, Ret tt)
  | adj :: rest =>
      if bool_decide (adj ∉ fs_revealed st) && bool_decide (adj ∉ fl) then
        let st1 := FloodState (fs_stack st) ({[adj]} ∪ fs_revealed st)
                              ({[adj]} ∪ fs_newly st) in
        match grid_get g adj.1 adj.2 with
        | None => (st1, Exc IndexError)
        | Some v =>
            if v =? 0
            then visit_adjacent g fl rest
                   (FloodState (fs_stack st1 ++ [adj]) (fs_revealed st1) (fs_newly st1))
            else visit_adjacent g fl rest st1
        end
      else visit_adjacent g fl rest st
  end.

(** The [while stack:] loop, on a step budget, for a frontier discipline
    [pop]. *)
Fixpoint flood (pop : list cell → option (cell * list cell)) (fuel : nat)
    (w h : Z) (g : list (list Z)) (fl : gset cell) (st : flood_state)
    : flood_state * outcome unit :=
  match fuel with
  | O => (st, NoFuel)
  | S fuel' =>
      match pop (fs_stack st) with
      | None => (st, Ret tt)
      | Some (curr, stack') =>
          match visit_adjacent g fl (adjacent_squares w h curr.1 curr.2)
                  (FloodState stack' (fs_revealed st) (fs_newly st)) with
          | (st', Ret _) => flood pop fuel' w h g fl st'
          | (st', out) => (st', out)
          end
      end
  end.

(** The budget given to the loop: two more than the number of grid cells. *)
Definition flood_budget (b : board) : nat :=
  S (S (Z.to_nat (width b) * Z.to_nat (height b))).

(** [reveal_square], for a frontier discipline [pop]: the new board and the
    returned set (or the exception raised). *)
Definition reveal_with (pop : list cell → option (cell * list cell))
    (b : board) (x y : Z) : board * outcome (gset cell) :=
  if bool_decide ((x, y) ∈ revealed b) || bool_decide ((x, y) ∈ flagged b)
  then (b, Ret ∅)
  else
    let newly_revealed : gset cell := {[(x, y)]} in
    let rev := {[(x, y)]} ∪ revealed b in
    match grid_get (grid b) x y with
    | None => (set_revealed rev b, Exc IndexError)
    | Some v =>
        if v =? 0 then
          let '(st, out) :=
            flood pop (flood_budget b) (width b) (height b) (grid b) (flagged b)
                  (FloodState [(x, y)] rev newly_revealed) in
          (set_revealed (fs_revealed st) b,
           match out with
           | Ret _ => Ret (fs_newly st)
           | Exc e => Exc e
           | NoFuel => NoFuel
           end)
        else (set_revealed rev b, Ret newly_revealed)
    end.

(** [reveal_square] as the source has it: the frontier is a stack. *)
Definition reveal_square (b : board) (x y : Z) : board * outcome (gset cell) :=
  reveal_with stack_pop b x y.

(** The variant of the specification's wording: the frontier is a queue. *)
Definition reveal_square_queue (b : board) (x y : Z) : board * outcome (gset cell) :=
  reveal_with queue_pop b x y.

(** ** Mine placement *)

(** [random.sample(population, k)]: [k] elements drawn without replacement.
    The random source is the list [rnd] of draws; a draw [r] selects the
    element at index [r mod n] of the [n] elements still available (an
    exhausted source draws 0).  Every result Python can return is the
    result for some [rnd].  A negative [k], or one above the population
    size, raises [ValueError]. *)
Fixpoint draw {A} (rnd : list nat) (pool : list A) (k : nat) : list A :=
  match k with
  | O => []
  | S k' =>
      let i := (hd 0%nat rnd `mod` length pool)%nat in
      match pool !! i with
      | Some a => a :: draw (tl rnd) (delete i pool) k'
      | None => []
      end
  end.

Definition random_sample {A} (rnd : list nat) (population : list A) (k : Z)
    : outcome (list A) :=
  if (k <? 0) || (Z.of_nat (length population) <? k) then Exc ValueError
  else Ret (draw rnd population (Z.to_nat k)).

(** A sequence of grid writes [grid[y][x] = v], stopping at the first
    [IndexError] with the writes done so far kept. *)
Fixpoint write_cells (g : list (list Z)) (ws : list (cell * Z))
    : list (list Z) * outcome unit :=
  match ws with
  | [] => (g, Ret tt)
  | (c, v) :: rest =>
      match grid_set g c.1 c.2 v with
      | Some g' => write_cells g' rest
      | None => (g, Exc IndexError)
      end
  end.

(** The first loop of [place_mines]: every mine position gets [-1]. *)
Definition mine_writes (mines : gset cell) : list (cell * Z) :=
  (λ c, (c, -1)) <$> elements mines.

(** The second loop of [place_mines]: rows outermost, then columns; every
    position that is not a mine gets its count. *)
Definition count_writes (w h : Z) (mines : gset cell) : list (cell * Z) :=
  y ← range h;
  x ← range w;
  if bool_decide ((x, y) ∉ mines)
  then [((x, y), count_mines w h mines x y)] else [].

(** [place_mines]: the new board and the outcome. *)
Definition place_mines (rnd : list nat) (b : board) (first_click_x first_click_y : Z)
    : board * outcome unit :=
  let b0 := set_mine_positions ∅ b in
  let safe_zone : gset cell :=
    {[(first_click_x, first_click_y)]}
    ∪ list_to_set (get_adjacent_squares b first_click_x first_click_y) in
  let available_positions : list cell :=
    x ← range (width b);
    y ← range (height b);
    if bool_decide ((x, y) ∉ safe_zone) then [(x, y)] else [] in
  match random_sample rnd available_positions
          (Z.min (num_mines b) (Z.of_nat (length available_positions))) with
  | Ret selected_positions =>
      let mines : gset cell := list_to_set selected_positions in
      let b1 := set_mine_positions mines b0 in
      match write_cells (grid b1) (mine_writes mines) with
      | (g1, Ret _) =>
          match write_cells g1 (count_writes (width b) (height b) mines) with
          | (g2, out) => (set_grid g2 b1, out)
          end
      | (g1, out) => (set_grid g1 b1, out)
      end
  | Exc e => (b0, Exc e)
  | NoFuel => (b0, NoFuel)
  end.

(** ** Saving and loading *)

(** The dictionary built by [get_save_state] and read by [load_save_state]:
    one field per key, [None] where the dictionary lacks the key.  The sets
    travel as lists.  A key that is present carries a value of the type
    [get_save_state] writes; values of other types (which Python would
    store as they are, or on which [set(...)] would raise [TypeError]) are
    not modelled. *)
Record save_state : Type := SaveState {
  s_width : option Z;
  s_height : option Z;
  s_num_mines : option Z;
  s_grid : option (list (list Z));
  s_mine_positions : option (list cell);
  s_first_move : option bool;
  s_revealed : option (list cell);
  s_flagged : option (list cell);
  s_game_over : option bool;
  s_won : option bool;
  s_game_time : option Z;
  s_mines_remaining : option Z
}.

(** [get_save_state]: all twelve keys are written. *)
Definition get_save_state (b : board) : save_state :=
  SaveState (Some (width b)) (Some (height b)) (Some (num_mines b))
            (Some (grid b))
            (Some (elements (mine_positions b))) (Some (first_move b))
            (Some (elements (revealed b))) (Some (elements (flagged b)))
            (Some (game_over b)) (Some (won b)) (Some (game_time b))
            (Some (mines_remaining b)).

(** The assignments of [load_save_state] to the attributes that no other
    operation writes. *)
Definition set_width (w : Z) (b : board) : board :=
  Board w (height b) (num_mines b) (grid b) (mine_positions b) (first_move b)
        (revealed b) (flagged b) (game_over b) (won b) (time_started b)
        (game_time b) (mines_remaining b).

Definition set_height (h : Z) (b : board) : board :=
  Board (width b) h (num_mines b) (grid b) (mine_positions b) (first_move b)
        (revealed b) (flagged b) (game_over b) (won b) (time_started b)
        (game_time b) (mines_remaining b).

Definition set_num_mines (n : Z) (b : board) : board :=
  Board (width b) (height b) n (grid b) (mine_positions b) (first_move b)
        (revealed b) (flagged b) (game_over b) (won b) (time_started b)
        (game_time b) (mines_remaining b).

Definition set_game_over (over : bool) (b : board) : board :=
  Board (width b) (height b) (num_mines b) (grid b) (mine_positions b)
        (first_move b) (revealed b) (flagged b) over (won b) (time_started b)
        (game_time b) (mines_remaining b).

Definition set_won (w : bool) (b : board) : board :=
  Board (width b) (height b) (num_mines b) (grid b) (mine_positions b)
        (first_move b) (revealed b) (flagged b) (game_over b) w (time_started b)
        (game_time b) (mines_remaining b).

Definition set_game_time (t : Z) (b : board) : board :=
  Board (width b) (height b) (num_mines b) (grid b) (mine_positions b)
        (first_move b) (revealed b) (flagged b) (game_over b) (won b)
        (time_started b) t (mines_remaining b).

(** The statements of [load_save_state], in their order: each looks its
    key up in the dictionary ([None]: the key is missing) and assigns the
    value to one attribute.  [time_started] is not among them. *)
Definition load_steps (state : save_state) : list (option (board → board)) :=
  [ set_width <$> s_width state;
    set_height <$> s_height state;
    set_num_mines <$> s_num_mines state;
    set_grid <$> s_grid state;
    (λ l, set_mine_positions (list_to_set l)) <$> s_mine_positions state;
    set_first_move <$> s_first_move state;
    (λ l, set_revealed (list_to_set l)) <$> s_revealed state;
    (λ l b, set_flagged (list_to_set l) (mines_remaining b) b) <$> s_flagged state;
    set_game_over <$> s_game_over state;
    set_won <$> s_won state;
    set_game_time <$> s_game_time state;
    (λ r b, set_flagged (flagged b) r b) <$> s_mines_remaining state ].

(** Statements run one after the other; a missing key raises [KeyError]
    and leaves the assignments made so far in place. *)
Fixpoint assign_all (steps : list (option (board → board))) (b : board)
    : board * outcome unit :=
  match steps with
  | [] => (b, Ret tt)
  | None :: _ => (b, Exc KeyError)
  | Some assign :: rest => assign_all rest (assign b)
  end.

(** [load_save_state]: twelve lookups and assignments, none of them
    guarded by a check of the values. *)
Definition load_save_state (b : board) (state : save_state)
    : board * outcome unit :=
  assign_all (load_steps state) b.


(** ** The click handler of the window (gui.py) *)

(** [check_win] *)
Definition check_win (b : board) : bool :=
  bool_decide (Z.of_nat (size (revealed b)) = width b * height b - num_mines b).

(** What [handle_click] decides: nothing (the square is flagged), the game
    is over (the square is a mine), or squares were opened and [check_win]
    gave the attached answer. *)
Inductive click_result : Type :=
| ClickIgnored
| ClickGameOver
| ClickOpened (newly_revealed : gset cell) (win : bool).

(** [handle_click], without the widgets: the flag guard, the lazy mine
    placement on the first move, the mine test that ends the game before
    anything is revealed, the reveal, and the win test. *)
Definition handle_click (rnd : list nat) (b : board) (x y : Z)
    : board * outcome click_result :=
  if bool_decide ((x, y) ∈ flagged b) then (b, Ret ClickIgnored)
  else
    let '(b1, placed) :=
      if first_move b then
        match place_mines rnd b x y with
        | (b', Ret _) => (set_first_move false b', Ret tt)
        | (b', out) => (b', out)
        end
      else (b, Ret tt) in
    match placed with
    | Ret _ =>
        if is_mine b1 x y then (b1, Ret ClickGameOver)
        else
          match reveal_square b1 x y with
          | (b2, Ret newly_revealed) =>
              (b2, Ret (ClickOpened newly_revealed (check_win b2)))
          | (b2, Exc e) => (b2, Exc e)
          | (b2, NoFuel) => (b2, NoFuel)
          end
    | Exc e => (b1, Exc e)
    | NoFuel => (b1, NoFuel)
    end.

(** ** Sequences of operations *)

(** The three-valued status of the specification, read off the two flags
    [won] and [game_over] of the object. *)
Inductive status : Set := InProgress | Won | Lost.

Definition status_of (b : board) : status :=
  if won b then Won else if game_over b then Lost else InProgress.

(** One call on the board. *)
Inductive op : Type :=
| OpReveal (x y : Z)
| OpToggleFlag (x y : Z)
| OpPlaceMines (rnd : list nat) (x y : Z)
| OpClick (rnd : list nat) (x y : Z).

(** What the call gave back. *)
Inductive op_result : Type :=
| ResReveal (out : outcome (gset cell))
| ResToggleFlag (placed : bool)
| ResPlaceMines (out : outcome unit)
| ResClick (out : outcome click_result).

Definition step (b : board) (o : op) : board * op_result :=
  match o with
  | OpReveal x y => let '(b', r) := reveal_square b x y in (b', ResReveal r)
  | OpToggleFlag x y => let '(b', r) := toggle_flag b x y in (b', ResToggleFlag r)
  | OpPlaceMines rnd x y => let '(b', r) := place_mines rnd b x y in (b', ResPlaceMines r)
  | OpClick rnd x y => let '(b', r) := handle_click rnd b x y in (b', ResClick r)
  end.

(** A sequence of calls, each on the board the previous one left (also
    when that one raised: the window's event loop goes on). *)
Fixpoint run (ops : list op) (b : board) : board * list op_result :=
  match ops with
  | [] => (b, [])
  | o :: rest =>
      let '(b1, r) := step b o in
      let '(b2, rs) := run rest b1 in
      (b2, r :: rs)
  end.

(** ** Predicates used by the statements *)

(** The grid has [height] rows of [width] columns, as [initialize_grid]
    builds it. *)
Definition grid_shaped (w h : Z) (g : list (list Z)) : Prop :=
  length g = Z.to_nat h ∧ Forall (λ row, length row = Z.to_nat w) g.

Definition well_shaped (b : board) : Prop :=
  grid_shaped (width b) (height b) (grid b).

(** The coordinate is inside the grid. *)
Definition in_bounds (b : board) (x y : Z) : Prop :=
  0 ≤ x < width b ∧ 0 ≤ y < height b.

(** Every grid coordinate, as a list. *)
Definition all_cells (w h : Z) : list cell :=
  x ← range w; y ← range h; [(x, y)].

(** Two distinct coordinates at distance at most one in both directions. *)
Definition touching (c d : cell) : bool :=
  (Z.abs (c.1 - d.1) <=? 1) && (Z.abs (c.2 - d.2) <=? 1)
  && negb (bool_decide (c = d)).

(** The brute-force count of the specification: over the whole grid, the
    cells that touch [(x, y)] and hold a mine. *)
Definition brute_force_count (b : board) (x y : Z) : Z :=
  Z.of_nat (length (filter (λ c, touching c (x, y) ∧ c ∈ mine_positions b)
                           (all_cells (width b) (height b)))).

(** A cell whose grid value is 0. *)
Definition zero_at (g : list (list Z)) (c : cell) : Prop :=
  grid_get g c.1 c.2 = Some 0.

(** What one flood can reach from [start], given the flags [fl] and the
    squares [old] revealed before the call: [start], and every neighbour,
    neither in [old] nor flagged, of a reached square of value 0. *)
Inductive flood_reach (w h : Z) (g : list (list Z)) (fl old : gset cell)
    (start : cell) : cell → Prop :=
| fr_start : flood_reach w h g fl old start start
| fr_step c n :
    flood_reach w h g fl old start c →
    zero_at g c →
    n ∈ adjacent_squares w h c.1 c.2 →
    n ∉ old → n ∉ fl →
    flood_reach w h g fl old start n.

(** The zero-valued squares connected to [start] through zero-valued
    squares that are neither revealed nor flagged on [b].  A step goes to a
    square of the grid that touches the previous one ([touching]: another
    square at distance at most one in both directions); the neighbour
    function of the code plays no part in this definition. *)
Inductive zero_region (b : board) (start : cell) : cell → Prop :=
| zr_start : zero_region b start start
| zr_step c n :
    zero_region b start c →
    in_bounds b n.1 n.2 → touching n c →
    zero_at (grid b) n →
    n ∉ revealed b → n ∉ flagged b →
    zero_region b start n.

(** The squares of the grid that are neither revealed nor flagged and
    touch a square of the region. *)
Definition region_border (b : board) (start n : cell) : Prop :=
  ∃ c, zero_region b start c ∧ in_bounds b n.1 n.2 ∧ touching n c
       ∧ (n ∉ revealed b) ∧ (n ∉ flagged b).

(** The region in the words of the specification: the maximal connected
    set of zero-valued squares containing [start], whatever is revealed or
    flagged; connected by steps between touching squares of the grid. *)
Inductive zero_connected (b : board) (start : cell) : cell → Prop :=
| zc_start : zero_connected b start start
| zc_step c n :
    zero_connected b start c →
    in_bounds b n.1 n.2 → touching n c →
    zero_at (grid b) n →
    zero_connected b start n.

(** The set of all grid coordinates. *)
Definition grid_cells (w h : Z) : gset cell := list_to_set (all_cells w h).

(** The measure that bounds the flood loop: the grid squares not yet
    revealed, plus the frontier. *)
Definition flood_measure (w h : Z) (st : flood_state) : nat :=
  (size (grid_cells w h ∖ fs_revealed st) + length (fs_stack st))%nat.

(** The invariant of the flood loop, for a call that started at [start]
    on a board whose revealed squares were [old]. *)
Definition flood_inv (w h : Z) (g : list (list Z)) (fl old : gset cell)
    (start : cell) (st : flood_state) : Prop :=
  (∀ c, c ∈ fs_revealed st ↔ c ∈ old ∨ c ∈ fs_newly st)
  ∧ (∀ c, c ∈ fs_newly st → c ∉ old)
  ∧ (∀ c, c ∈ fs_newly st → flood_reach w h g fl old start c)
  ∧ (∀ c, c ∈ fs_stack st → c ∈ fs_newly st ∧ zero_at g c)
  ∧ (∀ c, c ∈ fs_newly st → zero_at g c →
       c ∈ fs_stack st
       ∨ ∀ n, n ∈ adjacent_squares w h c.1 c.2 → n ∉ fl → n ∈ fs_revealed st)
  ∧ start ∈ fs_newly st.

(** ** Boards used as examples *)

(** A row of seven squares with one mine, placed by a first click on the
    third square: the values are [0 0 0 0 0 1 -1]. *)
Definition mined_row : board :=
  (place_mines [3%nat] (new_board 7 1 1) 2 0).1.

(** The same row after the player flagged the second and the fourth
    square, revealed the third, and took both flags away again. *)
Definition unflagged_row : board :=
  (run [OpToggleFlag 1 0; OpToggleFlag 3 0; OpReveal 2 0;
        OpToggleFlag 1 0; OpToggleFlag 3 0] mined_row).1.

(** The beginner board of the window (9 x 9, 10 mines) after a first click
    in the middle. *)
Definition beginner_draws : list nat :=
  [3; 17; 5; 40; 22; 9; 61; 2; 33; 50]%nat.

Definition beginner_board : board :=
  (place_mines beginner_draws (new_board 9 9 10) 4 4).1.

(** The same board as the click handler leaves it: the first move is
    over. *)
Definition beginner_game : board := set_first_move false beginner_board.




(** ** Predicates used by the further properties *)

(** The squares [place_mines] keeps free: the first click and its
    neighbours. *)
Definition safe_zone (b : board) (x y : Z) : gset cell :=
  {[(x, y)]} ∪ list_to_set (get_adjacent_squares b x y).

(** The grid agrees with the mines: the board is well shaped, every mine is
    inside the grid, a mine's square holds [-1] and every other square its
    number of adjacent mines.  This is the state [place_mines] leaves. *)
Definition grid_consistent (b : board) : Prop :=
  well_shaped b
  ∧ (∀ c, c ∈ mine_positions b → in_bounds b c.1 c.2)
  ∧ ∀ a d, in_bounds b a d →
      grid_get (grid b) a d =
        Some (if decide ((a, d) ∈ mine_positions b) then -1
              else count_adjacent_mines b a d).

(** A call whose coordinate is inside a [w] x [h] grid. *)
Definition op_in_bounds (w h : Z) (o : op) : Prop :=
  match o with
  | OpReveal x y | OpToggleFlag x y | OpPlaceMines _ x y | OpClick _ x y =>
      0 ≤ x < w ∧ 0 ≤ y < h
  end.

(** A call the window can make: [create_game_board] binds the left button
    of the square [(x, y)] to [handle_click] and the right button to
    [handle_right_click], which calls [toggle_flag], for [x] in
    [range(width)] and [y] in [range(height)] only. *)
Definition window_op (w h : Z) (o : op) : Prop :=
  match o with
  | OpClick _ x y | OpToggleFlag x y => 0 ≤ x < w ∧ 0 ≤ y < h
  | OpReveal _ _ | OpPlaceMines _ _ _ => False
  end.

(** The call returned, it did not raise. *)
Definition returned (r : op_result) : Prop :=
  match r with
  | ResReveal (Ret _) | ResPlaceMines (Ret _) | ResClick (Ret _)
  | ResToggleFlag _ => True
  | _ => False
  end.

(** What holds throughout a game played in the window: the grid has its
    shape; before the first move nothing is revealed; after it the grid
    agrees with the mines; no revealed square is a mine, and every revealed
    square lies inside the grid. *)
Definition play_invariant (b : board) : Prop :=
  well_shaped b
  ∧ (first_move b = true → revealed b = ∅)
  ∧ (first_move b = false → grid_consistent b)
  ∧ revealed b ## mine_positions b
  ∧ ∀ c, c ∈ revealed b → in_bounds b c.1 c.2.

(** ** The difficulties of the window (gui.py) *)

(** The values of the [difficulties] dictionary set in [__init__]: Easy,
    Medium and Hard, each as (width, height, mines). *)
Definition preset_difficulties : list (Z * Z * Z) :=
  [(9, 9, 10); (16, 16, 40); (30, 16, 99)].

(** The two range checks of [validate_and_set] on the integers read from
    the custom-difficulty dialog. *)
Definition custom_difficulty_ok (w h mines : Z) : bool :=
  let max_mines := w * h - 9 in
  ((8 <=? w) && (w <=? 50) && (8 <=? h) && (h <=? 50))
  && ((1 <=? mines) && (mines <=? max_mines)).

(** ** The high-score table (high_score.py) *)

(** One entry of the table, the dictionary built by [add_score]; two
    entries are equal, as Python dictionaries are, when all four values
    are. *)
Record score_entry : Type := ScoreEntry {
  se_time : Z;
  se_date : string;
  se_board_size : string;
  se_mines : Z
}.

Global Instance score_entry_eq_dec : EqDecision score_entry.
Proof. solve_decision. Defined.

(** [list.sort(key=lambda x: x["time"])]: Python's sort is stable and
    ascending.  The model inserts the elements one after the other, from
    the left, each behind the elements whose time is not larger;
    [sort_by_time_sorted], [sort_by_time_perm] and [sort_by_time_stable]
    show that this is the stable ascending sort. *)
Fixpoint insert_by_time (e : score_entry) (l : list score_entry)
    : list score_entry :=
  match l with
  | [] => [e]
  | x :: r =>
      if se_time e <? se_time x then e :: x :: r
      else x :: insert_by_time e r
  end.

Definition sort_by_time (l : list score_entry) : list score_entry :=
  foldl (λ acc e, insert_by_time e acc) [] l.

(** [get_scores]: [self.scores.get(difficulty, [])] *)
Definition get_scores (scores : gmap string (list score_entry))
    (difficulty : string) : list score_entry :=
  default [] (scores !! difficulty).

(** [add_score]: the new table and the returned boolean.  The clock is an
    input: [date] is what [datetime.now().strftime(...)] gives.  The write
    to the scores file ([save_scores], which catches its own [IOError]) is
    not part of the model. *)
Definition add_score (scores : gmap string (list score_entry))
    (difficulty : string) (time : Z) (board_size : Z * Z) (mines : Z)
    (date : string) : gmap string (list score_entry) * bool :=
  let score_entry :=
    ScoreEntry time date (pretty board_size.1 +:+ "x" +:+ pretty board_size.2)
               mines in
  let scores1 :=
    match scores !! difficulty with
    | None => <[difficulty := []]> scores
    | Some _ => scores
    end in
  let appended := get_scores scores1 difficulty ++ [score_entry] in
  let kept := take 10 (sort_by_time appended) in
  (<[difficulty := kept]> scores1, bool_decide (score_entry ∈ kept)).

(** The order of the table: by time, ascending. *)
Definition by_time (a b : score_entry) : Prop := se_time a ≤ se_time b.

(** * Properties *)

Example adjacent_corner :
  adjacent_squares 3 3 0 0 = [(0, 1); (1, 0); (1, 1)].
Proof. reflexivity. Qed.

Example toggle_fresh :
  (toggle_flag (new_board 9 9 10) 2 3).2 = true
  ∧ mines_remaining (toggle_flag (new_board 9 9 10) 2 3).1 = 9.
Proof. vm_compute. done. Qed.

(** ** Ranges, indexing and neighbours *)

Lemma elem_of_range (z n : Z) : z ∈ range n ↔ 0 ≤ z < n.
Proof.
  unfold range. rewrite list_elem_of_fmap. split.
  - intros (k & -> & Hk). apply elem_of_seq in Hk. lia.
  - intros Hz. exists (Z.to_nat z). split; [lia|]. apply elem_of_seq. lia.
Qed.

Lemma length_range (n : Z) : length (range n) = Z.to_nat n.
Proof. unfold range. by rewrite length_fmap, length_seq. Qed.

Lemma NoDup_range (n : Z) : NoDup (range n).
Proof.
  unfold range. apply NoDup_fmap_2; [|apply NoDup_seq].
  intros a b Hab. lia.
Qed.

(** Finds the disjunct that holds among the nine offsets. *)
Ltac pick_offset :=
  first [ solve [ match goal with |- _ ∈ (if ?c then _ else _) =>
                    replace c with true by (symmetry; lia) end;
                  apply list_elem_of_singleton; f_equal; lia ]
        | left; pick_offset | right; pick_offset ].

Lemma elem_of_adjacent (w h x y : Z) (c : cell) :
  c ∈ adjacent_squares w h x y ↔ in_grid w h c ∧ touching c (x, y).
Proof.
  destruct c as [a b]. unfold adjacent_squares, offsets, in_grid, touching.
  cbn [mbind list_bind app fst snd].
  rewrite !elem_of_app, !elem_of_nil.
  split.
  - intros H.
    repeat match goal with
    | H : _ ∨ _ |- _ => destruct H as [H|H]
    | H : False |- _ => destruct H
    | H : _ ∈ (if ?c then _ else _) |- _ =>
        destruct c eqn:?;
        [apply list_elem_of_singleton in H; inversion H; subst; clear H
        | by apply elem_of_nil in H]
    end.
    all: rewrite bool_decide_eq_false_2 by (intros [= ? ?]; lia).
    all: split; apply Is_true_true; lia.
  - intros [H1 H2].
    apply Is_true_true in H1, H2.
    assert (a = x ∧ b = y → False) as Hxy.
    { intros [-> ->]. rewrite bool_decide_eq_true_2 in H2 by done.
      rewrite andb_false_r in H2. done. }
    assert (∃ dx dy, a = x + dx ∧ b = y + dy) as (dx & dy & -> & ->)
      by (exists (a - x), (b - y); lia).
    assert (dx = -1 ∨ dx = 0 ∨ dx = 1) as [-> | [-> | ->]] by lia;
      assert (dy = -1 ∨ dy = 0 ∨ dy = 1) as [-> | [-> | ->]] by lia;
      try lia; pick_offset.
Qed.

Lemma in_grid_spec (w h : Z) (c : cell) :
  in_grid w h c ↔ 0 ≤ c.1 < w ∧ 0 ≤ c.2 < h.
Proof. unfold in_grid. rewrite !andb_True, !Is_true_true. lia. Qed.

Lemma elem_of_all_cells (w h : Z) (c : cell) :
  c ∈ all_cells w h ↔ in_grid w h c.
Proof.
  rewrite in_grid_spec. unfold all_cells. destruct c as [a b]. simpl.
  rewrite list_elem_of_bind. split.
  - intros (x & Hy & Hx). apply list_elem_of_bind in Hy as (y & Hc & Hy).
    apply list_elem_of_singleton in Hc as [= -> ->].
    apply elem_of_range in Hx, Hy. done.
  - intros [Ha Hb]. exists a. split; [|by apply elem_of_range].
    apply list_elem_of_bind. exists b. split; [|by apply elem_of_range].
    by apply list_elem_of_singleton.
Qed.

Lemma NoDup_all_cells (w h : Z) : NoDup (all_cells w h).
Proof.
  unfold all_cells.
  assert (∀ xs : list Z, NoDup xs → NoDup (x ← xs; y ← range h; [(x, y)])) as Hgen.
  { induction 1 as [|x xs Hx Hxs IH]; [constructor|].
    cbn [mbind list_bind]. apply NoDup_app. split_and!.
    - assert (∀ ys : list Z, NoDup ys → NoDup (y ← ys; [(x, y)])) as Hrow.
      { induction 1 as [|y ys Hy Hys IHy]; [constructor|].
        cbn. constructor; [|done].
        intros Hin. apply list_elem_of_bind in Hin as (y' & Hc & Hy').
        apply list_elem_of_singleton in Hc as [= ->]. done. }
      apply Hrow, NoDup_range.
    - intros [a b] Hin Hin'.
      apply list_elem_of_bind in Hin as (y & Hc & _).
      apply list_elem_of_singleton in Hc as [= -> ->].
      apply list_elem_of_bind in Hin' as (x' & Hc & Hx').
      apply list_elem_of_bind in Hc as (y' & Hc & _).
      apply list_elem_of_singleton in Hc as [= -> ->]. done.
    - done. }
  apply Hgen, NoDup_range.
Qed.

Lemma length_bind_const {A B} (f : A → list B) (n : nat) (l : list A) :
  (∀ a, length (f a) = n) → length (l ≫= f) = (length l * n)%nat.
Proof.
  intros Hf. induction l as [|a l IH]; [done|].
  cbn [mbind list_bind length]. rewrite length_app, Hf.
  simpl. f_equal. exact IH.
Qed.

Lemma length_all_cells (w h : Z) :
  length (all_cells w h) = (Z.to_nat w * Z.to_nat h)%nat.
Proof.
  unfold all_cells.
  rewrite (length_bind_const _ (Z.to_nat h)), length_range; [done|].
  intros x. rewrite (length_bind_const _ 1%nat), length_range; [lia|done].
Qed.

Lemma adjacent_in_grid (w h x y : Z) (c : cell) :
  c ∈ adjacent_squares w h x y → 0 ≤ c.1 < w ∧ 0 ≤ c.2 < h.
Proof. intros Hc. apply elem_of_adjacent in Hc as [Hc _]. by apply in_grid_spec. Qed.

Lemma touching_spec (c d : cell) :
  touching c d ↔ Z.abs (c.1 - d.1) ≤ 1 ∧ Z.abs (c.2 - d.2) ≤ 1 ∧ c ≠ d.
Proof.
  unfold touching. rewrite !andb_True, negb_True, bool_decide_spec, !Is_true_true.
  rewrite !Z.leb_le. tauto.
Qed.

Lemma elem_of_if_singleton (c : bool) (p q : cell) :
  q ∈ (if c then [p] else []) → q = p.
Proof.
  destruct c; [apply list_elem_of_singleton|].
  intros H. by apply elem_of_nil in H.
Qed.

Lemma NoDup_offsets : NoDup offsets.
Proof.
  apply NoDup_ListNoDup. unfold offsets.
  repeat constructor; simpl; lia.
Qed.

Lemma NoDup_adjacent (w h x y : Z) : NoDup (adjacent_squares w h x y).
Proof.
  unfold adjacent_squares. apply NoDup_bind; [| |apply NoDup_offsets].
  - intros dx1 dx2 c _ _ H1 H2.
    apply list_elem_of_bind in H1 as (dy1 & H1 & _).
    apply list_elem_of_bind in H2 as (dy2 & H2 & _).
    apply elem_of_if_singleton in H1, H2. subst c. injection H2. lia.
  - intros dx _. apply NoDup_bind; [| |apply NoDup_offsets].
    + intros dy1 dy2 c _ _ H1 H2.
      apply elem_of_if_singleton in H1, H2. subst c. injection H2. lia.
    + intros dy _. simpl. case_match; [apply NoDup_singleton|constructor].
Qed.

Lemma adjacent_length_le (w h x y : Z) (l : list cell) :
  (∀ c, c ∈ adjacent_squares w h x y → c ∈ l) →
  (length (adjacent_squares w h x y) ≤ length l)%nat.
Proof.
  intros Hsub. apply submseteq_length, NoDup_submseteq; [apply NoDup_adjacent|done].
Qed.

(** Reduces membership in a list of explicit coordinates to arithmetic. *)
Ltac among_cells :=
  repeat (apply elem_of_cons; first [ left; f_equal; lia | right ]).

Lemma adjacent_offsets (w h x y : Z) (c : cell) :
  c ∈ adjacent_squares w h x y →
  ∃ dx dy, c = (x + dx, y + dy) ∧ -1 ≤ dx ≤ 1 ∧ -1 ≤ dy ≤ 1
           ∧ (dx ≠ 0 ∨ dy ≠ 0) ∧ 0 ≤ x + dx < w ∧ 0 ≤ y + dy < h.
Proof.
  intros Hc. apply elem_of_adjacent in Hc as [Hg Ht].
  apply in_grid_spec in Hg. apply touching_spec in Ht as (H1 & H2 & Hne).
  destruct c as [a b]. simpl in *. exists (a - x), (b - y).
  split; [f_equal; lia|].
  assert (a = x ∧ b = y → False) by (intros [-> ->]; done). lia.
Qed.

Lemma length_adjacent (w h x y : Z) :
  (length (adjacent_squares w h x y) ≤ 8)%nat.
Proof.
  apply (adjacent_length_le w h x y
    [(x-1, y-1); (x-1, y); (x-1, y+1); (x, y-1); (x, y+1);
     (x+1, y-1); (x+1, y); (x+1, y+1)]).
  intros c (dx & dy & -> & Hdx & Hdy & Hne & _)%adjacent_offsets.
  assert (dx = -1 ∨ dx = 0 ∨ dx = 1) as [-> | [-> | ->]] by lia;
    assert (dy = -1 ∨ dy = 0 ∨ dy = 1) as [-> | [-> | ->]] by lia;
    try lia; among_cells.
Qed.

Lemma length_adjacent_edge (w h x y : Z) :
  x = 0 ∨ x = w - 1 ∨ y = 0 ∨ y = h - 1 →
  (length (adjacent_squares w h x y) ≤ 5)%nat.
Proof.
  intros [-> | [Hx | [-> | Hy]]].
  - apply (adjacent_length_le w h 0 y
      [(0, y-1); (0, y+1); (1, y-1); (1, y); (1, y+1)]).
    intros c (dx & dy & -> & Hdx & Hdy & Hne & Hx & _)%adjacent_offsets.
    assert (dx = 0 ∨ dx = 1) as [-> | ->] by lia;
      assert (dy = -1 ∨ dy = 0 ∨ dy = 1) as [-> | [-> | ->]] by lia;
      try lia; among_cells.
  - apply (adjacent_length_le w h x y
      [(x-1, y-1); (x-1, y); (x-1, y+1); (x, y-1); (x, y+1)]).
    intros c (dx & dy & -> & Hdx & Hdy & Hne & Hx' & _)%adjacent_offsets.
    assert (dx = -1 ∨ dx = 0) as [-> | ->] by lia;
      assert (dy = -1 ∨ dy = 0 ∨ dy = 1) as [-> | [-> | ->]] by lia;
      try lia; among_cells.
  - apply (adjacent_length_le w h x 0
      [(x-1, 0); (x+1, 0); (x-1, 1); (x, 1); (x+1, 1)]).
    intros c (dx & dy & -> & Hdx & Hdy & Hne & _ & Hy)%adjacent_offsets.
    assert (dy = 0 ∨ dy = 1) as [-> | ->] by lia;
      assert (dx = -1 ∨ dx = 0 ∨ dx = 1) as [-> | [-> | ->]] by lia;
      try lia; among_cells.
  - apply (adjacent_length_le w h x y
      [(x-1, y-1); (x, y-1); (x+1, y-1); (x-1, y); (x+1, y)]).
    intros c (dx & dy & -> & Hdx & Hdy & Hne & _ & Hy')%adjacent_offsets.
    assert (dy = -1 ∨ dy = 0) as [-> | ->] by lia;
      assert (dx = -1 ∨ dx = 0 ∨ dx = 1) as [-> | [-> | ->]] by lia;
      try lia; among_cells.
Qed.

(** ** Counting mines *)

Lemma count_step (c : bool) (count : Z) :
  (if c then count + 1 else count) = count + (if c then 1 else 0).
Proof. destruct c; lia. Qed.

Lemma length_filter_option (mines : gset cell) (c : bool) (p : cell) :
  Z.of_nat (length (filter (λ d, d ∈ mines) (if c then [p] else [])))
  = if c && bool_decide (p ∈ mines) then 1 else 0.
Proof.
  destruct c; [|done]. simpl.
  rewrite filter_cons, filter_nil.
  destruct (decide (p ∈ mines)).
  - by rewrite bool_decide_eq_true_2.
  - by rewrite bool_decide_eq_false_2.
Qed.

Lemma count_mines_filter (w h : Z) (mines : gset cell) (x y : Z) :
  count_mines w h mines x y
  = Z.of_nat (length (filter (λ c, c ∈ mines) (adjacent_squares w h x y))).
Proof.
  unfold count_mines, adjacent_squares, offsets.
  cbn [foldl mbind list_bind app].
  rewrite !filter_app, !length_app, filter_nil. cbn [length].
  rewrite !Nat2Z.inj_add, !length_filter_option, !count_step. lia.
Qed.

Lemma brute_force_count_adjacent (b : board) (x y : Z) :
  brute_force_count b x y = count_adjacent_mines b x y.
Proof.
  unfold brute_force_count, count_adjacent_mines.
  rewrite count_mines_filter. f_equal. apply Permutation_length.
  apply NoDup_Permutation.
  - apply NoDup_filter, NoDup_all_cells.
  - apply NoDup_filter, NoDup_adjacent.
  - intros c. rewrite !list_elem_of_filter, elem_of_all_cells, elem_of_adjacent.
    tauto.
Qed.

Lemma count_mines_bounds (w h : Z) (mines : gset cell) (x y : Z) :
  0 ≤ count_mines w h mines x y ≤ 8.
Proof.
  rewrite count_mines_filter.
  pose proof (length_filter (λ c, c ∈ mines) (adjacent_squares w h x y)).
  pose proof (length_adjacent w h x y). lia.
Qed.

(** ** Grid reads and writes *)

Lemma py_index_inside {A} (l : list A) (i : Z) :
  0 ≤ i < Z.of_nat (length l) → py_index l i = Some (Z.to_nat i).
Proof.
  intros Hi. unfold py_index.
  replace ((0 <=? i) && (i <? Z.of_nat (length l))) with true; [done|].
  symmetry. apply andb_true_iff. lia.
Qed.



Lemma grid_get_inside (w h : Z) (g : list (list Z)) (x y : Z) :
  grid_shaped w h g → 0 ≤ x < w → 0 ≤ y < h →
  grid_get g x y = g !! Z.to_nat y ≫= λ row, row !! Z.to_nat x.
Proof.
  intros [Hlen Hrows] Hx Hy. unfold grid_get, py_get.
  rewrite py_index_inside by lia.
  destruct (g !! Z.to_nat y) as [row|] eqn:Hrow; [|done]. simpl.
  rewrite Forall_lookup in Hrows. specialize (Hrows _ _ Hrow).
  by rewrite py_index_inside by lia.
Qed.

Lemma grid_get_is_Some (w h : Z) (g : list (list Z)) (x y : Z) :
  grid_shaped w h g → 0 ≤ x < w → 0 ≤ y < h → is_Some (grid_get g x y).
Proof.
  intros Hg Hx Hy. rewrite (grid_get_inside w h) by done.
  destruct Hg as [Hlen Hrows].
  destruct (lookup_lt_is_Some_2 g (Z.to_nat y)) as [row Hrow]; [lia|].
  rewrite Hrow. simpl. apply lookup_lt_is_Some_2.
  rewrite Forall_lookup in Hrows. rewrite (Hrows _ _ Hrow). lia.
Qed.

Lemma grid_set_inside (w h : Z) (g : list (list Z)) (x y v : Z) :
  grid_shaped w h g → 0 ≤ x < w → 0 ≤ y < h →
  ∃ g', grid_set g x y v = Some g' ∧ grid_shaped w h g'
    ∧ ∀ a b, 0 ≤ a < w → 0 ≤ b < h →
        grid_get g' a b = if decide ((a, b) = (x, y)) then Some v else grid_get g a b.
Proof.
  intros Hg Hx Hy. pose proof Hg as [Hlen Hrows].
  destruct (lookup_lt_is_Some_2 g (Z.to_nat y)) as [row Hrow]; [lia|].
  pose proof Hrows as Hall. rewrite Forall_lookup in Hall.
  pose proof (Hall _ _ Hrow) as Hrowlen.
  unfold grid_set, py_set. rewrite py_index_inside by lia. rewrite Hrow.
  rewrite py_index_inside by lia.
  eexists. split; [done|].
  assert (grid_shaped w h (<[Z.to_nat y:=<[Z.to_nat x:=v]> row]> g)) as Hg'.
  { split; [by rewrite length_insert|].
    apply Forall_insert; [done|]. by rewrite length_insert. }
  split; [done|].
  intros a b Ha Hb.
  rewrite (grid_get_inside w h _ a b), (grid_get_inside w h g a b) by done.
  destruct (decide ((a, b) = (x, y))) as [[= -> ->]|Hne].
  - rewrite list_lookup_insert_eq by lia. simpl.
    by rewrite list_lookup_insert_eq by lia.
  - destruct (decide (b = y)) as [->|Hby].
    + rewrite list_lookup_insert_eq by lia. rewrite Hrow. simpl.
      apply list_lookup_insert_ne. intros E. apply Hne. f_equal. lia.
    + rewrite list_lookup_insert_ne by lia. done.
Qed.

Lemma write_cells_inside (w h : Z) (f : cell → Z) (ws : list (cell * Z))
    (g : list (list Z)) :
  grid_shaped w h g →
  (∀ c v, (c, v) ∈ ws → 0 ≤ c.1 < w ∧ 0 ≤ c.2 < h ∧ v = f c) →
  ∃ g', write_cells g ws = (g', Ret tt) ∧ grid_shaped w h g'
    ∧ ∀ a b, 0 ≤ a < w → 0 ≤ b < h →
        grid_get g' a b = if decide ((a, b) ∈ ws.*1) then Some (f (a, b))
                          else grid_get g a b.
Proof.
  revert g. induction ws as [|[c v] ws IH]; intros g Hg Hws.
  - exists g. split_and!; [done..|]. intros a b _ _.
    rewrite decide_False; [done|]. simpl. apply not_elem_of_nil.
  - destruct (Hws c v) as (Hc1 & Hc2 & Hv); [left|].
    destruct (grid_set_inside w h g c.1 c.2 v Hg Hc1 Hc2) as (g1 & Hset & Hg1 & Hget1).
    destruct (IH g1 Hg1) as (g' & Hrun & Hg' & Hget').
    { intros c' v' Hin. apply Hws. by right. }
    exists g'. simpl. rewrite Hset. split_and!; [done..|].
    intros a b Ha Hb. rewrite Hget', Hget1 by done.
    change (((c, v) :: ws).*1) with (c :: ws.*1).
    destruct (decide ((a, b) ∈ ws.*1)) as [Hin|Hnin].
    + rewrite decide_True; [done|by right].
    + destruct (decide ((a, b) = (c.1, c.2))) as [E|Hne].
      * rewrite decide_True; [by rewrite Hv, E, <- surjective_pairing|].
        rewrite E, <- surjective_pairing. left.
      * rewrite decide_False; [done|].
        intros [E|Hin]%elem_of_cons; [|done].
        apply Hne. by rewrite <- E.
Qed.

Lemma initialize_grid_shaped (w h : Z) : grid_shaped w h (initialize_grid w h).
Proof.
  unfold initialize_grid. split.
  - by rewrite length_fmap, length_range.
  - apply Forall_fmap, Forall_forall. intros y _. simpl.
    by rewrite length_fmap, length_range.
Qed.

Lemma new_board_well_shaped (w h n : Z) : well_shaped (new_board w h n).
Proof. apply initialize_grid_shaped. Qed.

(** ** Mine placement *)

Lemma draw_elem_of {A} (k : nat) (rnd : list nat) (pool : list A) (a : A) :
  a ∈ draw rnd pool k → a ∈ pool.
Proof.
  revert rnd pool. induction k as [|k IH]; intros rnd pool; simpl.
  - intros H. by apply elem_of_nil in H.
  - destruct (pool !! _) as [a0|] eqn:Hi; [|intros H; by apply elem_of_nil in H].
    intros [->|Hin]%elem_of_cons.
    + by eapply list_elem_of_lookup_2.
    + apply IH in Hin. by eapply list_elem_of_delete_inv.
Qed.

Lemma elem_of_count_writes (w h : Z) (mines : gset cell) (c : cell) (v : Z) :
  (c, v) ∈ count_writes w h mines ↔
  0 ≤ c.1 < w ∧ 0 ≤ c.2 < h ∧ (c ∉ mines) ∧ v = count_mines w h mines c.1 c.2.
Proof.
  unfold count_writes. rewrite list_elem_of_bind. split.
  - intros (y & Hin & Hy%elem_of_range).
    apply list_elem_of_bind in Hin as (x & Hin & Hx%elem_of_range).
    case_bool_decide; [|by apply elem_of_nil in Hin].
    apply list_elem_of_singleton in Hin as [= -> ->]. done.
  - intros (Hx & Hy & Hc & ->). destruct c as [x y]. simpl in *.
    exists y. split; [|by apply elem_of_range].
    apply list_elem_of_bind. exists x. split; [|by apply elem_of_range].
    rewrite bool_decide_eq_true_2 by done. by apply list_elem_of_singleton.
Qed.

Lemma place_mines_spec (rnd : list nat) (b : board) (x y : Z) :
  well_shaped b → 0 ≤ num_mines b →
  ∃ mines g,
    place_mines rnd b x y = (set_grid g (set_mine_positions mines b), Ret tt)
    ∧ grid_shaped (width b) (height b) g
    ∧ (∀ c, c ∈ mines →
         (0 ≤ c.1 < width b ∧ 0 ≤ c.2 < height b)
         ∧ c ≠ (x, y) ∧ c ∉ get_adjacent_squares b x y)
    ∧ ∀ a d, 0 ≤ a < width b → 0 ≤ d < height b →
        grid_get g a d =
          Some (if decide ((a, d) ∈ mines) then -1
                else count_mines (width b) (height b) mines a d).
Proof.
  intros Hshape Hn. unfold place_mines.
  set (safe := ({[(x, y)]} ∪ list_to_set (get_adjacent_squares b x y) : gset cell)).
  set (avail := (x0 ← range (width b); y0 ← range (height b);
                 if bool_decide ((x0, y0) ∉ safe) then [(x0, y0)] else [])).
  unfold random_sample.
  replace ((_ <? 0) || _) with false; last first.
  { symmetry. apply orb_false_iff. rewrite !Z.ltb_ge. lia. }
  set (selected := draw rnd avail _).
  set (mines := (list_to_set selected : gset cell)).
  assert (∀ c, c ∈ mines →
            (0 ≤ c.1 < width b ∧ 0 ≤ c.2 < height b)
            ∧ c ≠ (x, y) ∧ c ∉ get_adjacent_squares b x y) as Hmines.
  { intros c Hc. apply elem_of_list_to_set, draw_elem_of in Hc.
    apply list_elem_of_bind in Hc as (x0 & Hc & Hx0%elem_of_range).
    apply list_elem_of_bind in Hc as (y0 & Hc & Hy0%elem_of_range).
    case_bool_decide as Hsafe; [|by apply elem_of_nil in Hc].
    apply list_elem_of_singleton in Hc as ->. simpl.
    split; [done|]. unfold safe in Hsafe. split.
    - intros E. apply Hsafe, elem_of_union_l, elem_of_singleton. done.
    - intros E. apply Hsafe, elem_of_union_r, elem_of_list_to_set. done. }
  change (grid (set_mine_positions mines (set_mine_positions ∅ b))) with (grid b).
  destruct (write_cells_inside (width b) (height b) (λ _, -1)
              (mine_writes mines) (grid b) Hshape) as (g1 & -> & Hg1 & Hget1).
  { intros c v Hin. unfold mine_writes in Hin.
    apply list_elem_of_fmap in Hin as (c' & [= -> ->] & Hc'%elem_of_elements).
    destruct (Hmines _ Hc') as [[??] _]. done. }
  destruct (write_cells_inside (width b) (height b)
              (λ c, count_mines (width b) (height b) mines c.1 c.2)
              (count_writes (width b) (height b) mines) g1 Hg1)
    as (g2 & -> & Hg2 & Hget2).
  { intros c v Hin. apply elem_of_count_writes in Hin as (? & ? & _ & ?). done. }
  exists mines, g2. split_and!; [done..|].
  intros a d Ha Hd. rewrite Hget2 by done. f_equal.
  destruct (decide ((a, d) ∈ mines)) as [Hm|Hm].
  - rewrite decide_False.
    + rewrite Hget1 by done. rewrite decide_True; [done|].
      unfold mine_writes. rewrite <- list_fmap_compose.
      apply list_elem_of_fmap. exists (a, d). split; [done|].
      by apply elem_of_elements.
    + intros Hin. apply list_elem_of_fmap in Hin as ([c v] & Hc & Hin).
      simpl in Hc. subst c. apply elem_of_count_writes in Hin as (_ & _ & Hnm & _).
      done.
  - rewrite decide_True; [done|].
    apply list_elem_of_fmap.
    exists ((a, d), count_mines (width b) (height b) mines a d).
    split; [done|]. apply elem_of_count_writes. done.
Qed.

(** ** The flood loop: termination *)

Lemma stack_pop_ok : pop_ok stack_pop.
Proof.
  intros l. unfold stack_pop. destruct (reverse l) as [|c r] eqn:E.
  - apply (f_equal reverse) in E. by rewrite reverse_involutive in E.
  - apply (f_equal reverse) in E. rewrite reverse_involutive in E. subst l.
    rewrite reverse_cons. by rewrite Permutation_app_comm.
Qed.

Lemma queue_pop_ok : pop_ok queue_pop.
Proof. intros [|c r]; simpl; reflexivity. Qed.

Lemma elem_of_grid_cells (w h : Z) (c : cell) :
  c ∈ grid_cells w h ↔ 0 ≤ c.1 < w ∧ 0 ≤ c.2 < h.
Proof.
  unfold grid_cells. by rewrite elem_of_list_to_set, elem_of_all_cells, in_grid_spec.
Qed.

Lemma size_grid_cells (w h : Z) :
  size (grid_cells w h) = (Z.to_nat w * Z.to_nat h)%nat.
Proof.
  unfold grid_cells. rewrite size_list_to_set by apply NoDup_all_cells.
  apply length_all_cells.
Qed.

Lemma size_unrevealed_insert (cells rev : gset cell) (c : cell) :
  c ∈ cells → c ∉ rev →
  S (size (cells ∖ ({[c]} ∪ rev))) = size (cells ∖ rev).
Proof.
  intros Hc Hr.
  assert (cells ∖ rev = {[c]} ∪ (cells ∖ ({[c]} ∪ rev))) as ->.
  { apply set_eq. intros d. rewrite elem_of_union, !elem_of_difference,
      elem_of_union, elem_of_singleton.
    destruct (decide (d = c)) as [->|]; tauto. }
  rewrite (size_union {[c]} (cells ∖ ({[c]} ∪ rev))), size_singleton; [done|].
  intros d Hd1 Hd2. apply elem_of_singleton in Hd1 as ->.
  apply elem_of_difference in Hd2 as [_ Hd2]. apply Hd2.
  by apply elem_of_union_l, elem_of_singleton.
Qed.

Section flood_termination.
Variables (w h : Z) (g : list (list Z)) (fl : gset cell).

Lemma visit_adjacent_fuel (adjs : list cell) (st : flood_state) :
  (visit_adjacent g fl adjs st).2 ≠ NoFuel.
Proof.
  revert st. induction adjs as [|adj rest IH]; intros st; simpl; [done|].
  destruct (bool_decide (adj ∉ fs_revealed st) && bool_decide (adj ∉ fl)); [|apply IH].
  destruct (grid_get g adj.1 adj.2) as [v|]; [|done].
  destruct (v =? 0); apply IH.
Qed.

Lemma visit_adjacent_measure (adjs : list cell) (st : flood_state) :
  (∀ a, a ∈ adjs → a ∈ grid_cells w h) →
  (flood_measure w h (visit_adjacent g fl adjs st).1 ≤ flood_measure w h st)%nat.
Proof.
  revert st. induction adjs as [|adj rest IH]; intros st Hin; simpl; [done|].
  assert (∀ a, a ∈ rest → a ∈ grid_cells w h) as Hrest.
  { intros a Ha. apply Hin. by right. }
  destruct (bool_decide (adj ∉ fs_revealed st) && bool_decide (adj ∉ fl)) eqn:E;
    [|by apply IH].
  apply andb_true_iff in E as [Hrev%bool_decide_eq_true _].
  assert (adj ∈ grid_cells w h) as Hadj by (apply Hin; left).
  pose proof (size_unrevealed_insert _ _ _ Hadj Hrev) as Hsize.
  destruct (grid_get g adj.1 adj.2) as [v|].
  - destruct (v =? 0).
    + etrans; [by apply IH|]. unfold flood_measure. simpl.
      rewrite length_app. simpl. lia.
    + etrans; [by apply IH|]. unfold flood_measure. simpl. lia.
  - unfold flood_measure. simpl. lia.
Qed.

Lemma flood_fuel (pop : list cell → option (cell * list cell)) (fuel : nat)
    (st : flood_state) :
  pop_ok pop →
  (flood_measure w h st < fuel)%nat →
  (flood pop fuel w h g fl st).2 ≠ NoFuel.
Proof.
  intros Hpop. revert st. induction fuel as [|fuel IH]; intros st Hlt; [lia|].
  simpl. pose proof (Hpop (fs_stack st)) as Hp.
  destruct (pop (fs_stack st)) as [[curr stack']|]; [|done].
  pose proof (visit_adjacent_fuel (adjacent_squares w h curr.1 curr.2)
                (FloodState stack' (fs_revealed st) (fs_newly st))) as Hnf.
  pose proof (visit_adjacent_measure (adjacent_squares w h curr.1 curr.2)
                (FloodState stack' (fs_revealed st) (fs_newly st))) as Hm.
  destruct (visit_adjacent _ _ _ _) as [st' out]. simpl in Hnf, Hm.
  destruct out as [[]|e|]; [|done..].
  apply IH. apply Permutation_length in Hp. simpl in Hp.
  unfold flood_measure in *. simpl in Hm.
  assert (size (grid_cells w h ∖ fs_revealed st') + length (fs_stack st')
          ≤ size (grid_cells w h ∖ fs_revealed st) + length stack')%nat; [|lia].
  apply Hm. intros a Ha. apply elem_of_grid_cells.
  by apply adjacent_in_grid in Ha.
Qed.
End flood_termination.

Lemma reveal_with_fuel (pop : list cell → option (cell * list cell))
    (b : board) (x y : Z) :
  pop_ok pop → (reveal_with pop b x y).2 ≠ NoFuel.
Proof.
  intros Hpop. unfold reveal_with.
  destruct (_ || _); [done|].
  destruct (grid_get (grid b) x y) as [v|]; [|done].
  destruct (v =? 0); [|done].
  pose proof (flood_fuel (width b) (height b) (grid b) (flagged b) pop
                (flood_budget b)
                (FloodState [(x, y)] ({[(x, y)]} ∪ revealed b) {[(x, y)]}) Hpop) as Hf.
  destruct (flood _ _ _ _ _ _ _) as [st out]. simpl in *.
  destruct out; [done..|]. exfalso. apply Hf; [|done].
  unfold flood_measure, flood_budget. simpl.
  pose proof (subseteq_size (grid_cells (width b) (height b) ∖ ({[(x, y)]} ∪ revealed b))
                (grid_cells (width b) (height b))) as Hle.
  rewrite size_grid_cells in Hle.
  assert (grid_cells (width b) (height b) ∖ ({[(x, y)]} ∪ revealed b)
          ⊆ grid_cells (width b) (height b)) as Hsub.
  { intros c Hc. by apply elem_of_difference in Hc as [Hc _]. }
  specialize (Hle Hsub). lia.
Qed.

(** The budget of [reveal_square] is never exhausted: the call returns or
    raises, on every board. *)
Lemma reveal_square_terminates (b : board) (x y : Z) :
  (reveal_square b x y).2 ≠ NoFuel.
Proof. apply reveal_with_fuel, stack_pop_ok. Qed.

(** ** The flood loop: what it reveals *)

Section flood_correct.
Variables (w h : Z) (g : list (list Z)) (fl old : gset cell) (start : cell).
Hypothesis Hshape : grid_shaped w h g.

Lemma visit_adjacent_spec (adjs : list cell) (st : flood_state) :
  (∀ a, a ∈ adjs → 0 ≤ a.1 < w ∧ 0 ≤ a.2 < h) →
  ∃ st', visit_adjacent g fl adjs st = (st', Ret tt)
    ∧ (∀ c, c ∈ fs_revealed st' ↔ c ∈ fs_revealed st ∨ (c ∈ adjs ∧ c ∉ fl))
    ∧ (∀ c, c ∈ fs_newly st' ↔
            c ∈ fs_newly st ∨ (c ∈ adjs ∧ (c ∉ fl) ∧ c ∉ fs_revealed st))
    ∧ (∀ c, c ∈ fs_stack st' ↔
            c ∈ fs_stack st
            ∨ (c ∈ adjs ∧ (c ∉ fl) ∧ (c ∉ fs_revealed st) ∧ zero_at g c)).
Proof.
  revert st. induction adjs as [|adj rest IH]; intros st Hin.
  - exists st. split; [done|]. split_and!; intros c; rewrite elem_of_nil; tauto.
  - assert (∀ a, a ∈ rest → 0 ≤ a.1 < w ∧ 0 ≤ a.2 < h) as Hrest.
    { intros a Ha. apply Hin. by right. }
    simpl.
    destruct (decide (adj ∈ fs_revealed st)) as [Hrev|Hrev].
    { rewrite (bool_decide_eq_false_2 (adj ∉ fs_revealed st)) by tauto. simpl.
      destruct (IH st Hrest) as (st' & -> & HR & HN & HS).
      exists st'. split; [done|].
      split_and!; intros c; rewrite ?HR, ?HN, ?HS, elem_of_cons;
        (split; [tauto|]); intros [?|[[->|?] ?]]; tauto. }
    destruct (decide (adj ∈ fl)) as [Hfl|Hfl].
    { rewrite (bool_decide_eq_false_2 (adj ∉ fl)) by tauto.
      rewrite andb_false_r.
      destruct (IH st Hrest) as (st' & -> & HR & HN & HS).
      exists st'. split; [done|].
      split_and!; intros c; rewrite ?HR, ?HN, ?HS, elem_of_cons;
        (split; [tauto|]); intros [?|[[->|?] ?]]; tauto. }
    rewrite !bool_decide_eq_true_2 by done. simpl.
    destruct (grid_get_is_Some w h g adj.1 adj.2 Hshape) as [v Hv];
      [apply Hin; left..|].
    rewrite Hv.
    destruct (v =? 0) eqn:Hz.
    + apply Z.eqb_eq in Hz as ->.
      destruct (IH (FloodState (fs_stack st ++ [adj]) ({[adj]} ∪ fs_revealed st)
                               ({[adj]} ∪ fs_newly st)) Hrest)
        as (st' & -> & HR & HN & HS).
      exists st'. split; [done|]. simpl in HR, HN, HS.
      split_and!; intros c; rewrite ?HR, ?HN, ?HS, ?elem_of_app, ?elem_of_union,
        ?elem_of_singleton, ?list_elem_of_singleton, elem_of_cons;
        destruct (decide (c = adj)) as [->|]; unfold zero_at; tauto.
    + apply Z.eqb_neq in Hz.
      destruct (IH (FloodState (fs_stack st) ({[adj]} ∪ fs_revealed st)
                               ({[adj]} ∪ fs_newly st)) Hrest)
        as (st' & -> & HR & HN & HS).
      exists st'. split; [done|]. simpl in HR, HN, HS.
      assert (¬ zero_at g adj) as Hnz.
      { unfold zero_at. rewrite Hv. intros [= ->]. done. }
      split_and!; intros c; rewrite ?HR, ?HN, ?HS, ?elem_of_union,
        ?elem_of_singleton, elem_of_cons;
        destruct (decide (c = adj)) as [->|]; tauto.
Qed.

Lemma flood_inv_step (st st' : flood_state) (curr : cell) (stack' : list cell) :
  flood_inv w h g fl old start st →
  fs_stack st ≡ₚ curr :: stack' →
  (∀ c, c ∈ fs_revealed st' ↔
        c ∈ fs_revealed st ∨ (c ∈ adjacent_squares w h curr.1 curr.2 ∧ c ∉ fl)) →
  (∀ c, c ∈ fs_newly st' ↔
        c ∈ fs_newly st
        ∨ (c ∈ adjacent_squares w h curr.1 curr.2 ∧ (c ∉ fl) ∧ c ∉ fs_revealed st)) →
  (∀ c, c ∈ fs_stack st' ↔
        c ∈ stack'
        ∨ (c ∈ adjacent_squares w h curr.1 curr.2 ∧ (c ∉ fl)
           ∧ (c ∉ fs_revealed st) ∧ zero_at g c)) →
  flood_inv w h g fl old start st'.
Proof.
  intros (Ia & Ib & Ic & Id & Ie & If) Hp HR HN HS.
  assert (∀ c, c ∈ fs_stack st ↔ c = curr ∨ c ∈ stack') as Hstack.
  { intros c. rewrite Hp. apply elem_of_cons. }
  destruct (Id curr) as [Hcn Hcz]; [apply Hstack; by left|].
  split_and!.
  - intros c. rewrite HR, HN. pose proof (Ia c).
    destruct (decide (c ∈ fs_revealed st)); tauto.
  - intros c [Hc|(Hadj & Hfl & Hrev)]%HN; [by apply Ib|].
    intros Ho. apply Hrev, Ia. by left.
  - intros c [Hc|(Hadj & Hfl & Hrev)]%HN; [by apply Ic|].
    apply (fr_step _ _ _ _ _ _ curr); [by apply Ic|done..| |done].
    intros Ho. apply Hrev, Ia. by left.
  - intros c [Hc|(Hadj & Hfl & Hrev & Hz)]%HS.
    + destruct (Id c) as [? ?]; [apply Hstack; by right|].
      split; [|done]. apply HN. by left.
    + split; [|done]. apply HN. by right.
  - intros c [Hc|(Hadj & Hfl & Hrev)]%HN Hz.
    + destruct (Ie c Hc Hz) as [[->|Hs]%Hstack|Hdone].
      * right. intros n Hn Hnfl. apply HR. by right.
      * left. apply HS. by left.
      * right. intros n Hn Hnfl. apply HR. left. by apply Hdone.
    + left. apply HS. by right.
  - apply HN. by left.
Qed.

Lemma flood_spec (pop : list cell → option (cell * list cell)) (fuel : nat)
    (st : flood_state) :
  pop_ok pop →
  (flood_measure w h st < fuel)%nat →
  flood_inv w h g fl old start st →
  ∃ st', flood pop fuel w h g fl st = (st', Ret tt)
    ∧ flood_inv w h g fl old start st' ∧ fs_stack st' = [].
Proof.
  intros Hpop. revert st. induction fuel as [|fuel IH]; intros st Hlt Hinv; [lia|].
  simpl. pose proof (Hpop (fs_stack st)) as Hp.
  destruct (pop (fs_stack st)) as [[curr stack']|]; [|by exists st].
  assert (∀ a, a ∈ adjacent_squares w h curr.1 curr.2 → 0 ≤ a.1 < w ∧ 0 ≤ a.2 < h)
    as Hadj by (intros a; apply adjacent_in_grid).
  pose proof (visit_adjacent_measure w h g fl (adjacent_squares w h curr.1 curr.2)
                (FloodState stack' (fs_revealed st) (fs_newly st))) as Hm.
  destruct (visit_adjacent_spec (adjacent_squares w h curr.1 curr.2)
              (FloodState stack' (fs_revealed st) (fs_newly st)) Hadj)
    as (st' & Hv & HR & HN & HS).
  rewrite Hv in Hm |- *. simpl in Hm, HR, HN, HS.
  apply IH.
  - apply Permutation_length in Hp. simpl in Hp.
    unfold flood_measure in *. simpl in Hm.
    assert (size (grid_cells w h ∖ fs_revealed st') + length (fs_stack st')
            ≤ size (grid_cells w h ∖ fs_revealed st) + length stack')%nat; [|lia].
    apply Hm. intros a Ha. by apply elem_of_grid_cells, Hadj.
  - by apply (flood_inv_step st st' curr stack').
Qed.

Lemma flood_inv_final (st : flood_state) :
  flood_inv w h g fl old start st → fs_stack st = [] →
  ∀ c, c ∈ fs_newly st ↔ flood_reach w h g fl old start c.
Proof.
  intros (Ia & Ib & Ic & Id & Ie & If) Hnil c. split; [apply Ic|].
  induction 1 as [|c n Hc IHc Hz Hn Ho Hfl]; [done|].
  destruct (Ie c IHc Hz) as [Hs|Hdone].
  - rewrite Hnil in Hs. by apply elem_of_nil in Hs.
  - apply Hdone in Hn; [|done]. apply Ia in Hn as [?|?]; done.
Qed.
End flood_correct.

Lemma reveal_with_flood (pop : list cell → option (cell * list cell))
    (b : board) (x y : Z) :
  pop_ok pop → well_shaped b →
  (x, y) ∉ revealed b → (x, y) ∉ flagged b →
  grid_get (grid b) x y = Some 0 →
  ∃ newly : gset cell,
    reveal_with pop b x y = (set_revealed (revealed b ∪ newly) b, Ret newly)
    ∧ ∀ n, n ∈ newly ↔
           flood_reach (width b) (height b) (grid b) (flagged b) (revealed b) (x, y) n.
Proof.
  intros Hpop Hshape Hrev Hfl Hz. unfold reveal_with.
  rewrite !bool_decide_eq_false_2 by done. cbn [orb]. rewrite Hz.
  change (0 =? 0) with true. cbv iota.
  set (st0 := FloodState [(x, y)] ({[(x, y)]} ∪ revealed b) {[(x, y)]}).
  destruct (flood_spec (width b) (height b) (grid b) (flagged b) (revealed b) (x, y)
              Hshape pop (flood_budget b) st0 Hpop) as (st & -> & Hinv & Hnil).
  - unfold flood_measure, flood_budget, st0. simpl.
    pose proof (subseteq_size
                  (grid_cells (width b) (height b) ∖ ({[(x, y)]} ∪ revealed b))
                  (grid_cells (width b) (height b))) as Hle.
    rewrite size_grid_cells in Hle.
    assert (grid_cells (width b) (height b) ∖ ({[(x, y)]} ∪ revealed b)
            ⊆ grid_cells (width b) (height b)) as Hsub.
    { intros c Hc. by apply elem_of_difference in Hc as [Hc _]. }
    specialize (Hle Hsub). lia.
  - unfold flood_inv, st0. simpl. split_and!.
    + intros c. rewrite elem_of_union. tauto.
    + intros c ->%elem_of_singleton. done.
    + intros c ->%elem_of_singleton. constructor.
    + intros c ->%list_elem_of_singleton. split; [by apply elem_of_singleton|done].
    + intros c ->%elem_of_singleton _. left. by apply list_elem_of_singleton.
    + by apply elem_of_singleton.
  - exists (fs_newly st). split.
    + f_equal. f_equal. apply set_eq. intros c.
      destruct Hinv as (Ia & _). rewrite Ia, elem_of_union. done.
    + by apply (flood_inv_final (width b) (height b) (grid b) (flagged b)
                  (revealed b) (x, y)).
Qed.

Lemma elem_of_get_adjacent (b : board) (c n : cell) :
  n ∈ get_adjacent_squares b c.1 c.2 ↔ in_bounds b n.1 n.2 ∧ touching n c.
Proof.
  unfold get_adjacent_squares, in_bounds.
  by rewrite elem_of_adjacent, in_grid_spec, <- surjective_pairing.
Qed.

Lemma zero_region_zero (b : board) (start c : cell) :
  zero_at (grid b) start → zero_region b start c → zero_at (grid b) c.
Proof. intros Hz. by induction 1. Qed.

Lemma zero_region_reach (b : board) (start c : cell) :
  zero_at (grid b) start → zero_region b start c →
  flood_reach (width b) (height b) (grid b) (flagged b) (revealed b) start c.
Proof.
  intros Hz. induction 1 as [|c n Hc IH Hn Ht Hzn Hr Hf]; [constructor|].
  apply (fr_step _ _ _ _ _ _ c); [done| | |done..].
  - by apply (zero_region_zero b start).
  - by apply (elem_of_get_adjacent b c n).
Qed.

Lemma flood_reach_region (b : board) (start n : cell) :
  zero_at (grid b) start →
  flood_reach (width b) (height b) (grid b) (flagged b) (revealed b) start n
  ↔ zero_region b start n ∨ region_border b start n.
Proof.
  intros Hz. split.
  - induction 1 as [|c n Hc IH Hzc Hn Hr Hf]; [left; constructor|].
    apply (elem_of_get_adjacent b c n) in Hn as [Hn Ht].
    right. exists c. split_and!; [|done..].
    destruct IH as [?|(c0 & Hc0 & Hin & Hadj & Hrc & Hfc)]; [done|].
    by apply (zr_step _ _ c0).
  - intros [Hn|(c & Hc & Hin & Hadj & Hr & Hf)]; [by apply zero_region_reach|].
    apply (fr_step _ _ _ _ _ _ c); [by apply zero_region_reach| | |done..].
    + by apply (zero_region_zero b start).
    + by apply (elem_of_get_adjacent b c n).
Qed.

Lemma zero_region_connected (b : board) (start n : cell) :
  revealed b = ∅ → flagged b = ∅ →
  zero_region b start n ↔ zero_connected b start n.
Proof.
  intros Hr Hf. split.
  - induction 1 as [|c n' Hc IH Hn Ht Hz _ _]; [constructor|].
    by apply (zc_step _ _ c).
  - induction 1 as [|c n' Hc IH Hn Ht Hz]; [constructor|].
    apply (zr_step _ _ c); [done..| |].
    + rewrite Hr. apply not_elem_of_empty.
    + rewrite Hf. apply not_elem_of_empty.
Qed.

Lemma get_value_Ret (b : board) (x y v : Z) :
  get_value b x y = Ret v ↔ grid_get (grid b) x y = Some v.
Proof.
  unfold get_value. destruct (grid_get (grid b) x y); split; congruence.
Qed.

(** C2 (as amended): on a well-shaped board, revealing an unrevealed,
    unflagged square of value 0 returns, and the returned set is exactly
    the region of zero-valued squares connected to it through squares that
    were neither revealed nor flagged before the call, plus the squares,
    neither revealed nor flagged, that border this region (connection and
    border are by touching squares inside the grid, as [zero_region] and
    [region_border] define them); the board
    changes in [revealed] only, which grows by the returned set; the
    returned set is the set of squares newly revealed; a queue as frontier
    gives the same board and the same set.  Where nothing was revealed or
    flagged before, the region is the maximal connected region of
    zero-valued squares. *)
Theorem flood_fill_region (b : board) (x y : Z) :
  well_shaped b →
  (x, y) ∉ revealed b → (x, y) ∉ flagged b →
  get_value b x y = Ret 0 →
  ∃ newly : gset cell,
    reveal_square b x y = (set_revealed (revealed b ∪ newly) b, Ret newly)
    ∧ (∀ n, n ∈ newly ↔ zero_region b (x, y) n ∨ region_border b (x, y) n)
    ∧ newly = revealed (reveal_square b x y).1 ∖ revealed b
    ∧ reveal_square_queue b x y = reveal_square b x y
    ∧ (revealed b = ∅ → flagged b = ∅ →
       ∀ n, zero_region b (x, y) n ↔ zero_connected b (x, y) n).
Proof.
  intros Hshape Hrev Hfl Hz%get_value_Ret.
  destruct (reveal_with_flood stack_pop b x y stack_pop_ok Hshape Hrev Hfl Hz)
    as (newly & Hs & Hnewly).
  destruct (reveal_with_flood queue_pop b x y queue_pop_ok Hshape Hrev Hfl Hz)
    as (newly' & Hq & Hnewly').
  assert (newly' = newly) as ->.
  { apply set_eq. intros n. by rewrite Hnewly, Hnewly'. }
  exists newly. unfold reveal_square, reveal_square_queue.
  rewrite Hs, Hq. split_and!; [done| | |done|].
  - intros n. rewrite Hnewly. by apply flood_reach_region.
  - simpl. apply set_eq. intros n.
    rewrite elem_of_difference, elem_of_union, Hnewly. split; [|tauto].
    intros Hn. split; [by right|]. intros Ho.
    destruct Hn as [|c n' _ _ _ Hnot _]; done.
  - intros Hr Hf n. by apply zero_region_connected.
Qed.

Lemma flood_fill_region_witness :
  ∃ newly : gset cell,
    reveal_square mined_row 2 0
      = (set_revealed (revealed mined_row ∪ newly) mined_row, Ret newly)
    ∧ (∀ n, n ∈ newly ↔ zero_region mined_row (2, 0) n ∨ region_border mined_row (2, 0) n)
    ∧ newly = revealed (reveal_square mined_row 2 0).1 ∖ revealed mined_row
    ∧ reveal_square_queue mined_row 2 0 = reveal_square mined_row 2 0
    ∧ (revealed mined_row = ∅ → flagged mined_row = ∅ →
       ∀ n, zero_region mined_row (2, 0) n ↔ zero_connected mined_row (2, 0) n).
Proof.
  apply flood_fill_region.
  - split; [reflexivity|]. vm_compute. repeat constructor.
  - apply (bool_decide_unpack _). vm_compute. exact I.
  - apply (bool_decide_unpack _). vm_compute. exact I.
  - reflexivity.
Defined.

(** C2 as stated fails on [unflagged_row]: the squares 0 to 4 form
    one connected region of zero-valued squares and nothing is flagged, yet
    revealing square 1 opens squares 1 and 0 only, because the flood does
    not pass through square 2, which is already revealed. *)
Lemma flood_fill_not_maximal :
  well_shaped unflagged_row
  ∧ in_bounds unflagged_row 1 0
  ∧ ((1, 0) ∉ revealed unflagged_row)
  ∧ flagged unflagged_row = ∅
  ∧ get_value unflagged_row 1 0 = Ret 0
  ∧ zero_connected unflagged_row (1, 0) (3, 0)
  ∧ (reveal_square unflagged_row 1 0).2 = Ret {[(1, 0); (0, 0)]}
  ∧ (3, 0) ∉ revealed (reveal_square unflagged_row 1 0).1.
Proof.
  split_and!.
  - split; [reflexivity|]. vm_compute. repeat constructor.
  - vm_compute. intuition discriminate.
  - apply (bool_decide_unpack _). vm_compute. exact I.
  - vm_compute. reflexivity.
  - reflexivity.
  - apply (zc_step _ _ (2, 0)); [apply (zc_step _ _ (1, 0)); [constructor|..]|..].
    + vm_compute. intuition discriminate.
    + vm_compute. exact I.
    + reflexivity.
    + vm_compute. intuition discriminate.
    + vm_compute. exact I.
    + reflexivity.
  - vm_compute. reflexivity.
  - apply (bool_decide_unpack _). vm_compute. exact I.
Qed.

(** ** Mine placement: the safe zone and the counts *)

(** C1: on a well-shaped board with a mine count that is not negative,
    [place_mines] at an in-bounds first click returns, and afterwards
    neither the clicked square nor any square of the grid that touches it
    (its up to eight grid-bounded neighbours, which are exactly the squares
    [get_adjacent_squares] lists) is in [mine_positions], is reported by
    [is_mine], or carries the mine sentinel [-1] in the grid, whatever the
    random source draws. *)
Theorem safe_first_click (rnd : list nat) (b : board) (x y : Z) :
  well_shaped b → 0 ≤ num_mines b → in_bounds b x y →
  ∃ b', place_mines rnd b x y = (b', Ret tt)
    ∧ (∀ c, c ∈ get_adjacent_squares b x y
            ↔ in_bounds b c.1 c.2 ∧ touching c (x, y))
    ∧ ∀ c, c = (x, y) ∨ (in_bounds b c.1 c.2 ∧ touching c (x, y)) →
        (c ∉ mine_positions b')
        ∧ is_mine b' c.1 c.2 = false
        ∧ ∃ v, get_value b' c.1 c.2 = Ret v ∧ v ≠ -1.
Proof.
  intros Hshape Hn [Hx Hy].
  destruct (place_mines_spec rnd b x y Hshape Hn) as (mines & g & -> & Hg & Hm & Hget).
  eexists. split; [done|]. split.
  { intros c. apply (elem_of_get_adjacent b (x, y) c). }
  intros c Hc. simpl.
  assert (c ∉ mines) as Hnm.
  { intros Hin. destruct (Hm c Hin) as (_ & Hne & Hadj).
    destruct Hc as [->|Hc]; [done|].
    by apply Hadj, (elem_of_get_adjacent b (x, y) c). }
  assert (0 ≤ c.1 < width b ∧ 0 ≤ c.2 < height b) as [Hc1 Hc2].
  { destruct Hc as [->|[Hc _]]; done. }
  split_and!; [done| |].
  - unfold is_mine. simpl. rewrite <- surjective_pairing.
    by apply bool_decide_eq_false_2.
  - unfold get_value. simpl. rewrite Hget by done.
    rewrite <- surjective_pairing, decide_False by done.
    eexists. split; [done|].
    pose proof (count_mines_bounds (width b) (height b) mines c.1 c.2). lia.
Qed.

Lemma safe_first_click_witness :
  ∃ b', place_mines beginner_draws (new_board 9 9 10) 4 4 = (b', Ret tt)
    ∧ (∀ c, c ∈ get_adjacent_squares (new_board 9 9 10) 4 4
            ↔ in_bounds (new_board 9 9 10) c.1 c.2 ∧ touching c (4, 4))
    ∧ ∀ c, c = (4, 4)
           ∨ (in_bounds (new_board 9 9 10) c.1 c.2 ∧ touching c (4, 4)) →
        (c ∉ mine_positions b')
        ∧ is_mine b' c.1 c.2 = false
        ∧ ∃ v, get_value b' c.1 c.2 = Ret v ∧ v ≠ -1.
Proof.
  apply safe_first_click.
  - split; [reflexivity|]. vm_compute. repeat constructor.
  - simpl. lia.
  - split; simpl; lia.
Defined.

(** C3: after [place_mines] on a well-shaped board, every in-bounds square
    that is not a mine holds the brute-force count of the mines among the
    squares touching it; a square holds the sentinel [-1] exactly when it is
    a mine; the neighbour enumeration yields only in-bounds squares that
    touch the square (no wraparound), at most eight of them, and at most
    five on the border of the grid. *)
Theorem adjacency_counts (rnd : list nat) (b : board) (x y : Z) :
  well_shaped b → 0 ≤ num_mines b →
  ∃ b', place_mines rnd b x y = (b', Ret tt)
    ∧ ∀ a d, in_bounds b' a d →
        (is_mine b' a d = false →
         get_value b' a d = Ret (brute_force_count b' a d)
         ∧ 0 ≤ brute_force_count b' a d ≤ 8)
        ∧ (get_value b' a d = Ret (-1) ↔ is_mine b' a d = true)
        ∧ (∀ c, c ∈ get_adjacent_squares b' a d →
             in_bounds b' c.1 c.2 ∧ touching c (a, d))
        ∧ (length (get_adjacent_squares b' a d) ≤ 8)%nat
        ∧ (a = 0 ∨ a = width b' - 1 ∨ d = 0 ∨ d = height b' - 1 →
           (length (get_adjacent_squares b' a d) ≤ 5)%nat).
Proof.
  intros Hshape Hn.
  destruct (place_mines_spec rnd b x y Hshape Hn) as (mines & g & -> & Hg & Hm & Hget).
  eexists. split; [done|]. intros a d [Ha Hd]. simpl in Ha, Hd.
  split_and!.
  - intros Hnm. apply bool_decide_eq_false in Hnm. simpl in Hnm.
    rewrite brute_force_count_adjacent. unfold get_value, count_adjacent_mines.
    simpl. rewrite Hget by done. rewrite decide_False by done.
    split; [done|]. apply count_mines_bounds.
  - unfold get_value, is_mine. simpl. rewrite Hget by done.
    destruct (decide ((a, d) ∈ mines)) as [Hin|Hnin].
    + by rewrite bool_decide_eq_true_2.
    + rewrite bool_decide_eq_false_2 by done.
      split; [|done]. intros [= E].
      pose proof (count_mines_bounds (width b) (height b) mines a d). lia.
  - intros c Hc. unfold get_adjacent_squares in Hc. simpl in Hc.
    apply elem_of_adjacent in Hc as [Hgrid Ht]. split; [|done].
    by apply in_grid_spec in Hgrid.
  - apply length_adjacent.
  - apply length_adjacent_edge.
Qed.

Lemma adjacency_counts_witness :
  ∃ b', place_mines beginner_draws (new_board 9 9 10) 4 4 = (b', Ret tt)
    ∧ ∀ a d, in_bounds b' a d →
        (is_mine b' a d = false →
         get_value b' a d = Ret (brute_force_count b' a d)
         ∧ 0 ≤ brute_force_count b' a d ≤ 8)
        ∧ (get_value b' a d = Ret (-1) ↔ is_mine b' a d = true)
        ∧ (∀ c, c ∈ get_adjacent_squares b' a d →
             in_bounds b' c.1 c.2 ∧ touching c (a, d))
        ∧ (length (get_adjacent_squares b' a d) ≤ 8)%nat
        ∧ (a = 0 ∨ a = width b' - 1 ∨ d = 0 ∨ d = height b' - 1 →
           (length (get_adjacent_squares b' a d) ≤ 5)%nat).
Proof.
  apply adjacency_counts.
  - split; [reflexivity|]. vm_compute. repeat constructor.
  - simpl. lia.
Defined.

(** ** Revealing and flagging *)

(** C9: on every board, [reveal_square] at a coordinate that is already
    revealed or currently flagged returns the empty set and leaves the
    board as it was, in every attribute. *)
Theorem reveal_revealed_or_flagged (b : board) (x y : Z) :
  (x, y) ∈ revealed b ∨ (x, y) ∈ flagged b →
  reveal_square b x y = (b, Ret ∅).
Proof.
  intros H. unfold reveal_square, reveal_with.
  destruct H as [H|H].
  - by rewrite (bool_decide_eq_true_2 _ H).
  - rewrite (bool_decide_eq_true_2 ((x, y) ∈ flagged b) H).
    by rewrite orb_true_r.
Qed.

Lemma reveal_revealed_or_flagged_witness :
  reveal_square (toggle_flag beginner_board 2 3).1 2 3
  = ((toggle_flag beginner_board 2 3).1, Ret ∅).
Proof.
  apply reveal_revealed_or_flagged. right.
  apply (bool_decide_unpack _). vm_compute. exact I.
Defined.

Lemma set_flagged_restore (b : board) (c : cell) :
  c ∉ flagged b →
  set_flagged (({[c]} ∪ flagged b) ∖ {[c]}) (mines_remaining b - 1 + 1)
    (set_flagged ({[c]} ∪ flagged b) (mines_remaining b - 1) b) = b.
Proof.
  intros Hc. destruct b as [w h n g m fm r f go wn ts gt mr].
  unfold set_flagged. simpl in *. f_equal; [|lia].
  apply set_eq. intros d. rewrite elem_of_difference, elem_of_union, elem_of_singleton.
  destruct (decide (d = c)) as [->|]; tauto.
Qed.

(** C10: on a square that is neither revealed nor flagged, [toggle_flag]
    returns [True], adds the square to [flagged] and takes exactly one from
    [mines_remaining]; a second call on the same square returns [False]
    and gives back the board of before, so the two calls together are the
    identity; on a revealed square the call returns [False] and changes
    nothing; [mines_remaining] is never clamped: flagging takes one also
    when this makes it negative, and removing a flag adds one also when
    this takes it above [num_mines]. *)
Theorem toggle_flag_laws (b : board) (x y : Z) :
  (x, y) ∉ revealed b → (x, y) ∉ flagged b →
  (toggle_flag b x y).2 = true
  ∧ flagged (toggle_flag b x y).1 = {[(x, y)]} ∪ flagged b
  ∧ mines_remaining (toggle_flag b x y).1 = mines_remaining b - 1
  ∧ toggle_flag (toggle_flag b x y).1 x y = (b, false)
  ∧ (∀ x' y', (x', y') ∈ revealed b → toggle_flag b x' y' = (b, false))
  ∧ (mines_remaining b ≤ 0 → mines_remaining (toggle_flag b x y).1 < 0)
  ∧ (∀ x' y', (x', y') ∉ revealed b → (x', y') ∈ flagged b →
       (toggle_flag b x' y').2 = false
       ∧ flagged (toggle_flag b x' y').1 = flagged b ∖ {[(x', y')]}
       ∧ mines_remaining (toggle_flag b x' y').1 = mines_remaining b + 1
       ∧ (num_mines b ≤ mines_remaining b →
          num_mines b < mines_remaining (toggle_flag b x' y').1)).
Proof.
  intros Hr Hf.
  assert (toggle_flag b x y
          = (set_flagged ({[(x, y)]} ∪ flagged b) (mines_remaining b - 1) b, true))
    as Hfirst.
  { unfold toggle_flag. by rewrite !bool_decide_eq_false_2 by done. }
  rewrite !Hfirst. simpl.
  split_and!; [done..| | | |].
  - unfold toggle_flag. simpl. rewrite bool_decide_eq_false_2 by done.
    rewrite bool_decide_eq_true_2 by (apply elem_of_union_l; by apply elem_of_singleton).
    f_equal. by apply set_flagged_restore.
  - intros x' y' H. unfold toggle_flag. by rewrite bool_decide_eq_true_2.
  - lia.
  - intros x' y' Hr' Hf'. unfold toggle_flag.
    rewrite bool_decide_eq_false_2 by done. rewrite bool_decide_eq_true_2 by done.
    simpl. split_and!; [done..|lia].
Qed.

Lemma toggle_flag_laws_witness :
  (toggle_flag (new_board 9 9 10) 2 3).2 = true
  ∧ flagged (toggle_flag (new_board 9 9 10) 2 3).1
    = {[(2, 3)]} ∪ flagged (new_board 9 9 10)
  ∧ mines_remaining (toggle_flag (new_board 9 9 10) 2 3).1
    = mines_remaining (new_board 9 9 10) - 1
  ∧ toggle_flag (toggle_flag (new_board 9 9 10) 2 3).1 2 3
    = (new_board 9 9 10, false)
  ∧ (∀ x' y', (x', y') ∈ revealed (new_board 9 9 10) →
       toggle_flag (new_board 9 9 10) x' y' = (new_board 9 9 10, false))
  ∧ (mines_remaining (new_board 9 9 10) ≤ 0 →
     mines_remaining (toggle_flag (new_board 9 9 10) 2 3).1 < 0)
  ∧ (∀ x' y', (x', y') ∉ revealed (new_board 9 9 10) →
       (x', y') ∈ flagged (new_board 9 9 10) →
       (toggle_flag (new_board 9 9 10) x' y').2 = false
       ∧ flagged (toggle_flag (new_board 9 9 10) x' y').1
         = flagged (new_board 9 9 10) ∖ {[(x', y')]}
       ∧ mines_remaining (toggle_flag (new_board 9 9 10) x' y').1
         = mines_remaining (new_board 9 9 10) + 1
       ∧ (num_mines (new_board 9 9 10) ≤ mines_remaining (new_board 9 9 10) →
          num_mines (new_board 9 9 10)
          < mines_remaining (toggle_flag (new_board 9 9 10) x' y').1)).
Proof.
  apply toggle_flag_laws.
  - apply (bool_decide_unpack _). vm_compute. exact I.
  - apply (bool_decide_unpack _). vm_compute. exact I.
Defined.

(** ** Revealed and flagged squares stay apart *)

Lemma visit_adjacent_revealed (g : list (list Z)) (fl : gset cell)
    (adjs : list cell) (st : flood_state) (c : cell) :
  c ∈ fs_revealed (visit_adjacent g fl adjs st).1 → c ∈ fs_revealed st ∨ c ∉ fl.
Proof.
  revert st. induction adjs as [|adj rest IH]; intros st; simpl; [by left|].
  destruct (bool_decide (adj ∉ fs_revealed st) && bool_decide (adj ∉ fl)) eqn:E;
    [|apply IH].
  apply andb_true_iff in E as [_ Hfl%bool_decide_eq_true].
  assert (c ∈ {[adj]} ∪ fs_revealed st → c ∈ fs_revealed st ∨ c ∉ fl) as Hadd.
  { intros [->%elem_of_singleton|?]%elem_of_union; [by right|by left]. }
  destruct (grid_get g adj.1 adj.2) as [v|]; [|done].
  destruct (v =? 0); intros [?|?]%IH; auto.
Qed.

Lemma flood_revealed (pop : list cell → option (cell * list cell)) (fuel : nat)
    (w h : Z) (g : list (list Z)) (fl : gset cell) (st : flood_state) (c : cell) :
  c ∈ fs_revealed (flood pop fuel w h g fl st).1 → c ∈ fs_revealed st ∨ c ∉ fl.
Proof.
  revert st. induction fuel as [|fuel IH]; intros st; simpl; [by left|].
  destruct (pop (fs_stack st)) as [[curr stack']|]; [|by left].
  pose proof (visit_adjacent_revealed g fl (adjacent_squares w h curr.1 curr.2)
                (FloodState stack' (fs_revealed st) (fs_newly st)) c) as Hv.
  destruct (visit_adjacent _ _ _ _) as [st' out]. simpl in Hv.
  destruct out as [[]|e|]; [|done..].
  intros [?|?]%IH; auto.
Qed.

Lemma reveal_with_sets (pop : list cell → option (cell * list cell))
    (b : board) (x y : Z) (c : cell) :
  flagged (reveal_with pop b x y).1 = flagged b
  ∧ (c ∈ revealed (reveal_with pop b x y).1 → c ∈ revealed b ∨ c ∉ flagged b).
Proof.
  unfold reveal_with.
  destruct (bool_decide ((x, y) ∈ revealed b)) eqn:Hr; [by split; [|left]|].
  destruct (bool_decide ((x, y) ∈ flagged b)) eqn:Hf; [by split; [|left]|].
  apply bool_decide_eq_false in Hf. cbn [orb].
  assert (c ∈ {[(x, y)]} ∪ revealed b → c ∈ revealed b ∨ c ∉ flagged b) as Hadd.
  { intros [->%elem_of_singleton|?]%elem_of_union; [by right|by left]. }
  destruct (grid_get (grid b) x y) as [v|]; [|by split].
  destruct (v =? 0); [|by split].
  pose proof (flood_revealed pop (flood_budget b) (width b) (height b) (grid b)
                (flagged b)
                (FloodState [(x, y)] ({[(x, y)]} ∪ revealed b) {[(x, y)]}) c) as Hfl.
  destruct (flood _ _ _ _ _ _ _) as [st out]. simpl in *.
  split; [done|]. intros [?|?]%Hfl; auto.
Qed.

Lemma place_mines_sets (rnd : list nat) (b : board) (x y : Z) :
  revealed (place_mines rnd b x y).1 = revealed b
  ∧ flagged (place_mines rnd b x y).1 = flagged b.
Proof.
  unfold place_mines.
  destruct (random_sample _ _ _) as [sel|e|]; [|done..].
  destruct (write_cells _ (mine_writes _)) as [g1 [[]|e|]]; [|done..].
  by destruct (write_cells g1 _) as [g2 out].
Qed.

Lemma toggle_flag_apart (b : board) (x y : Z) :
  revealed b ∩ flagged b = ∅ →
  revealed (toggle_flag b x y).1 ∩ flagged (toggle_flag b x y).1 = ∅.
Proof.
  intros Hinv. unfold toggle_flag.
  destruct (bool_decide ((x, y) ∈ revealed b)) eqn:Hr; [done|].
  apply bool_decide_eq_false in Hr.
  destruct (bool_decide ((x, y) ∈ flagged b)); simpl.
  - apply set_eq. intros c. rewrite elem_of_intersection, elem_of_difference.
    split; [|by intros ?%elem_of_empty].
    intros (Hc & Hfc & _). apply (f_equal (λ s : gset cell, c ∈ s)) in Hinv.
    simpl in Hinv. rewrite <- Hinv. by apply elem_of_intersection.
  - apply set_eq. intros c. rewrite elem_of_intersection, elem_of_union,
      elem_of_singleton.
    split; [|by intros ?%elem_of_empty].
    intros (Hc & [->|Hfc]); [done|].
    assert (c ∈ revealed b ∩ flagged b) as Hin by by apply elem_of_intersection.
    by rewrite Hinv in Hin.
Qed.

Lemma reveal_with_apart (pop : list cell → option (cell * list cell))
    (b : board) (x y : Z) :
  revealed b ∩ flagged b = ∅ →
  revealed (reveal_with pop b x y).1 ∩ flagged (reveal_with pop b x y).1 = ∅.
Proof.
  intros Hinv. apply set_eq. intros c.
  destruct (reveal_with_sets pop b x y c) as [Hfl Hrev].
  rewrite elem_of_intersection, Hfl.
  split; [|by intros ?%elem_of_empty].
  intros (Hc & Hfc). destruct (Hrev Hc) as [Hold|?]; [|done].
  assert (c ∈ revealed b ∩ flagged b) as Hin by by apply elem_of_intersection.
  by rewrite Hinv in Hin.
Qed.

Lemma place_mines_apart (rnd : list nat) (b : board) (x y : Z) :
  revealed b ∩ flagged b = ∅ →
  revealed (place_mines rnd b x y).1 ∩ flagged (place_mines rnd b x y).1 = ∅.
Proof. destruct (place_mines_sets rnd b x y) as [-> ->]. done. Qed.

Lemma handle_click_apart (rnd : list nat) (b : board) (x y : Z) :
  revealed b ∩ flagged b = ∅ →
  revealed (handle_click rnd b x y).1 ∩ flagged (handle_click rnd b x y).1 = ∅.
Proof.
  intros Hinv. unfold handle_click.
  destruct (bool_decide ((x, y) ∈ flagged b)); [done|].
  assert (∃ b1 placed,
    (if first_move b
     then match place_mines rnd b x y with
          | (b', Ret _) => (set_first_move false b', Ret tt)
          | (b', out) => (b', out)
          end
     else (b, Ret tt)) = (b1, placed)
    ∧ revealed b1 ∩ flagged b1 = ∅) as (b1 & placed & -> & Hinv1).
  { destruct (first_move b); [|by eauto].
    pose proof (place_mines_apart rnd b x y Hinv) as Hp.
    destruct (place_mines rnd b x y) as [b' [[]|e|]]; eauto. }
  destruct placed as [[]|e|]; [|done..].
  destruct (is_mine b1 x y); [done|].
  pose proof (reveal_with_apart stack_pop b1 x y Hinv1) as Hr.
  fold (reveal_square b1 x y) in Hr.
  by destruct (reveal_square b1 x y) as [b2 [newly|e|]].
Qed.

Lemma step_apart (b : board) (o : op) :
  revealed b ∩ flagged b = ∅ →
  revealed (step b o).1 ∩ flagged (step b o).1 = ∅.
Proof.
  intros Hinv. destruct o as [x y|x y|rnd x y|rnd x y]; simpl.
  - pose proof (reveal_with_apart stack_pop b x y Hinv) as H.
    fold (reveal_square b x y) in H. by destruct (reveal_square b x y).
  - pose proof (toggle_flag_apart b x y Hinv) as H. by destruct (toggle_flag b x y).
  - pose proof (place_mines_apart rnd b x y Hinv) as H.
    by destruct (place_mines rnd b x y).
  - pose proof (handle_click_apart rnd b x y Hinv) as H.
    by destruct (handle_click rnd b x y).
Qed.

Lemma run_apart (ops : list op) (b : board) :
  revealed b ∩ flagged b = ∅ →
  revealed (run ops b).1 ∩ flagged (run ops b).1 = ∅.
Proof.
  revert b. induction ops as [|o ops IH]; intros b Hinv; [done|].
  simpl. pose proof (step_apart b o Hinv) as Hs.
  destruct (step b o) as [b1 r]. specialize (IH b1 Hs).
  by destruct (run ops b1) as [b2 rs].
Qed.

(** C8: after every sequence of calls (reveals with their flood
    expansions, flag toggles, and also mine placements and clicks) on a
    freshly constructed board, no square is both revealed and flagged;
    this holds after calls that raised as well. *)
Theorem revealed_flagged_disjoint (w h n : Z) (ops : list op) :
  revealed (run ops (new_board w h n)).1 ∩ flagged (run ops (new_board w h n)).1 = ∅.
Proof. apply run_apart. simpl. apply set_eq. intros c. set_solver. Qed.

(** ** Saving and loading *)

Lemma load_get_save_state (b0 b : board) :
  load_save_state b0 (get_save_state b)
  = (set_time_started (time_started b0) b, Ret tt).
Proof.
  unfold load_save_state, get_save_state, set_time_started. simpl.
  by rewrite !list_to_set_elements_L.
Qed.







(** No operation reads or writes [time_started]: each one commutes with a
    change of that attribute. *)
Lemma toggle_flag_time (t : option Z) (b : board) (x y : Z) :
  toggle_flag (set_time_started t b) x y
  = (set_time_started t (toggle_flag b x y).1, (toggle_flag b x y).2).
Proof.
  unfold toggle_flag. simpl.
  destruct (bool_decide ((x, y) ∈ revealed b)); [done|].
  by destruct (bool_decide ((x, y) ∈ flagged b)).
Qed.

Lemma reveal_with_time (pop : list cell → option (cell * list cell))
    (t : option Z) (b : board) (x y : Z) :
  reveal_with pop (set_time_started t b) x y
  = (set_time_started t (reveal_with pop b x y).1, (reveal_with pop b x y).2).
Proof.
  unfold reveal_with.
  change (revealed (set_time_started t b)) with (revealed b).
  change (flagged (set_time_started t b)) with (flagged b).
  change (grid (set_time_started t b)) with (grid b).
  change (width (set_time_started t b)) with (width b).
  change (height (set_time_started t b)) with (height b).
  change (flood_budget (set_time_started t b)) with (flood_budget b).
  destruct (_ || _); [done|].
  destruct (grid_get (grid b) x y) as [v|]; [|done].
  destruct (v =? 0); [|done].
  by destruct (flood _ _ _ _ _ _ _) as [st out].
Qed.

Lemma place_mines_time (rnd : list nat) (t : option Z) (b : board) (x y : Z) :
  place_mines rnd (set_time_started t b) x y
  = (set_time_started t (place_mines rnd b x y).1, (place_mines rnd b x y).2).
Proof.
  unfold place_mines.
  change (width (set_time_started t b)) with (width b).
  change (height (set_time_started t b)) with (height b).
  change (num_mines (set_time_started t b)) with (num_mines b).
  change (get_adjacent_squares (set_time_started t b) x y)
    with (get_adjacent_squares b x y).
  destruct (random_sample _ _ _) as [sel|e|]; [|done..].
  change (grid (set_mine_positions (list_to_set sel)
                  (set_mine_positions ∅ (set_time_started t b))))
    with (grid b).
  change (grid (set_mine_positions (list_to_set sel) (set_mine_positions ∅ b)))
    with (grid b).
  destruct (write_cells (grid b) _) as [g1 [[]|e|]]; [|done..].
  by destruct (write_cells g1 _) as [g2 out].
Qed.

Lemma handle_click_time (rnd : list nat) (t : option Z) (b : board) (x y : Z) :
  handle_click rnd (set_time_started t b) x y
  = (set_time_started t (handle_click rnd b x y).1, (handle_click rnd b x y).2).
Proof.
  unfold handle_click.
  change (flagged (set_time_started t b)) with (flagged b).
  change (first_move (set_time_started t b)) with (first_move b).
  destruct (bool_decide ((x, y) ∈ flagged b)); [done|].
  assert (∀ b1, (if is_mine (set_time_started t b1) x y
                 then (set_time_started t b1, Ret ClickGameOver)
                 else match reveal_square (set_time_started t b1) x y with
                      | (b2, Ret newly_revealed) =>
                          (b2, Ret (ClickOpened newly_revealed (check_win b2)))
                      | (b2, Exc e) => (b2, Exc e)
                      | (b2, NoFuel) => (b2, NoFuel)
                      end)
                = (set_time_started t
                     (if is_mine b1 x y then (b1, Ret ClickGameOver)
                      else match reveal_square b1 x y with
                           | (b2, Ret newly_revealed) =>
                               (b2, Ret (ClickOpened newly_revealed (check_win b2)))
                           | (b2, Exc e) => (b2, Exc e)
                           | (b2, NoFuel) => (b2, NoFuel)
                           end).1,
                   (if is_mine b1 x y then (b1, Ret ClickGameOver)
                    else match reveal_square b1 x y with
                         | (b2, Ret newly_revealed) =>
                             (b2, Ret (ClickOpened newly_revealed (check_win b2)))
                         | (b2, Exc e) => (b2, Exc e)
                         | (b2, NoFuel) => (b2, NoFuel)
                         end).2)) as Hrest.
  { intros b1. change (is_mine (set_time_started t b1) x y) with (is_mine b1 x y).
    destruct (is_mine b1 x y); [done|].
    unfold reveal_square. rewrite reveal_with_time.
    by destruct (reveal_with stack_pop b1 x y) as [b2 [newly|e|]]. }
  destruct (first_move b); [|apply Hrest].
  rewrite place_mines_time.
  destruct (place_mines rnd b x y) as [b' [[]|e|]]; [|done..].
  apply (Hrest (set_first_move false b')).
Qed.

Lemma step_time (t : option Z) (b : board) (o : op) :
  step (set_time_started t b) o = (set_time_started t (step b o).1, (step b o).2).
Proof.
  destruct o as [x y|x y|rnd x y|rnd x y]; simpl.
  - unfold reveal_square. rewrite reveal_with_time.
    by destruct (reveal_with stack_pop b x y).
  - rewrite toggle_flag_time. by destruct (toggle_flag b x y).
  - rewrite place_mines_time. by destruct (place_mines rnd b x y).
  - rewrite handle_click_time. by destruct (handle_click rnd b x y).
Qed.

Lemma run_time (t : option Z) (ops : list op) (b : board) :
  run ops (set_time_started t b) = (set_time_started t (run ops b).1, (run ops b).2).
Proof.
  revert b. induction ops as [|o ops IH]; intros b; [done|].
  simpl. rewrite step_time. destruct (step b o) as [b1 r]. simpl.
  rewrite IH. by destruct (run ops b1) as [b2 rs].
Qed.

(** C5: loading the snapshot of [b] (into any board object [b0]) returns
    normally, and the restored board behaves as [b] does under every later
    sequence of reveals and flag toggles (and mine placements and clicks
    with the same draws): every call gives the same result, and the final
    boards agree on the status, on [revealed] and [flagged], and on every
    other attribute except [time_started], which the snapshot does not
    carry. *)
Theorem save_load_round_trip (b0 b : board) (ops : list op) :
  let loaded := load_save_state b0 (get_save_state b) in
  let restored := loaded.1 in
  loaded.2 = Ret tt
  ∧ (run ops restored).2 = (run ops b).2
  ∧ status_of (run ops restored).1 = status_of (run ops b).1
  ∧ revealed (run ops restored).1 = revealed (run ops b).1
  ∧ flagged (run ops restored).1 = flagged (run ops b).1
  ∧ (run ops restored).1 = set_time_started (time_started b0) (run ops b).1.
Proof.
  cbv zeta. rewrite load_get_save_state. cbn [fst snd].
  rewrite run_time. done.
Qed.



(** ** Coordinates outside the grid *)








(** ** What the operations leave alone *)

Lemma reveal_with_unchanged (pop : list cell → option (cell * list cell))
    (b : board) (x y : Z) :
  (reveal_with pop b x y).1 = set_revealed (revealed (reveal_with pop b x y).1) b.
Proof.
  unfold reveal_with.
  destruct (_ || _); [by destruct b|].
  destruct (grid_get (grid b) x y) as [v|]; [|done].
  destruct (v =? 0); [|done].
  by destruct (flood _ _ _ _ _ _ _) as [st out].
Qed.

Lemma place_mines_unchanged (rnd : list nat) (b : board) (x y : Z) :
  (place_mines rnd b x y).1
  = set_grid (grid (place_mines rnd b x y).1)
      (set_mine_positions (mine_positions (place_mines rnd b x y).1) b).
Proof.
  unfold place_mines.
  destruct (random_sample _ _ _) as [sel|e|]; [|by destruct b..].
  destruct (write_cells _ (mine_writes _)) as [g1 [[]|e|]]; [|done..].
  by destruct (write_cells g1 _) as [g2 out].
Qed.

Lemma handle_click_unchanged (rnd : list nat) (b : board) (x y : Z) :
  ∃ r f g m,
    (handle_click rnd b x y).1
    = set_revealed r (set_first_move f (set_grid g (set_mine_positions m b))).
Proof.
  unfold handle_click.
  destruct (bool_decide ((x, y) ∈ flagged b)).
  { exists (revealed b), (first_move b), (grid b), (mine_positions b). by destruct b. }
  assert (∃ b1 placed f g m,
    (if first_move b
     then match place_mines rnd b x y with
          | (b', Ret _) => (set_first_move false b', Ret tt)
          | (b', out) => (b', out)
          end
     else (b, Ret tt)) = (b1, placed)
    ∧ b1 = set_first_move f (set_grid g (set_mine_positions m b)))
    as (b1 & placed & f & g & m & -> & Hb1).
  { destruct (first_move b) eqn:Hfm.
    - pose proof (place_mines_unchanged rnd b x y) as Hp.
      destruct (place_mines rnd b x y) as [b' [[]|e|]]; simpl in Hp.
      + eexists _, _, false, (grid b'), (mine_positions b').
        split; [reflexivity|]. by rewrite Hp at 1.
      + eexists _, _, (first_move b), (grid b'), (mine_positions b').
        split; [reflexivity|]. rewrite Hp at 1. by destruct b.
      + eexists _, _, (first_move b), (grid b'), (mine_positions b').
        split; [reflexivity|]. rewrite Hp at 1. by destruct b.
    - eexists _, _, (first_move b), (grid b), (mine_positions b).
      split; [reflexivity|]. by destruct b. }
  destruct placed as [[]|e|].
  2,3: exists (revealed b), f, g, m; by rewrite Hb1.
  destruct (is_mine b1 x y).
  { exists (revealed b), f, g, m. by rewrite Hb1. }
  pose proof (reveal_with_unchanged stack_pop b1 x y) as Hr.
  fold (reveal_square b1 x y) in Hr.
  exists (revealed (reveal_square b1 x y).1), f, g, m.
  destruct (reveal_square b1 x y) as [b2 [newly|e|]]; simpl in *;
    rewrite Hr, Hb1; done.
Qed.

(** ** Win and loss *)

Lemma reveal_with_status (pop : list cell → option (cell * list cell))
    (b : board) (x y : Z) :
  status_of (reveal_with pop b x y).1 = status_of b.
Proof.
  unfold reveal_with.
  destruct (_ || _); [done|].
  destruct (grid_get (grid b) x y) as [v|]; [|done].
  destruct (v =? 0); [|done].
  by destruct (flood _ _ _ _ _ _ _) as [st out].
Qed.

Lemma toggle_flag_status (b : board) (x y : Z) :
  status_of (toggle_flag b x y).1 = status_of b.
Proof.
  unfold toggle_flag.
  destruct (bool_decide ((x, y) ∈ revealed b)); [done|].
  by destruct (bool_decide ((x, y) ∈ flagged b)).
Qed.

Lemma place_mines_status (rnd : list nat) (b : board) (x y : Z) :
  status_of (place_mines rnd b x y).1 = status_of b.
Proof.
  unfold place_mines.
  destruct (random_sample _ _ _) as [sel|e|]; [|done..].
  destruct (write_cells _ (mine_writes _)) as [g1 [[]|e|]]; [|done..].
  by destruct (write_cells g1 _) as [g2 out].
Qed.

Lemma handle_click_status (rnd : list nat) (b : board) (x y : Z) :
  status_of (handle_click rnd b x y).1 = status_of b.
Proof.
  unfold handle_click.
  destruct (bool_decide ((x, y) ∈ flagged b)); [done|].
  assert (∃ b1 placed,
    (if first_move b
     then match place_mines rnd b x y with
          | (b', Ret _) => (set_first_move false b', Ret tt)
          | (b', out) => (b', out)
          end
     else (b, Ret tt)) = (b1, placed)
    ∧ status_of b1 = status_of b) as (b1 & placed & -> & Hst).
  { destruct (first_move b); [|by eauto].
    pose proof (place_mines_status rnd b x y) as Hp.
    destruct (place_mines rnd b x y) as [b' [[]|e|]]; eauto. }
  destruct placed as [[]|e|]; [|done..].
  destruct (is_mine b1 x y); [done|].
  pose proof (reveal_with_status stack_pop b1 x y) as Hr.
  fold (reveal_square b1 x y) in Hr.
  destruct (reveal_square b1 x y) as [b2 [newly|e|]]; simpl in *; congruence.
Qed.

Lemma step_status (b : board) (o : op) : status_of (step b o).1 = status_of b.
Proof.
  destruct o as [x y|x y|rnd x y|rnd x y]; simpl.
  - pose proof (reveal_with_status stack_pop b x y) as H.
    fold (reveal_square b x y) in H. by destruct (reveal_square b x y).
  - pose proof (toggle_flag_status b x y) as H. by destruct (toggle_flag b x y).
  - pose proof (place_mines_status rnd b x y) as H.
    by destruct (place_mines rnd b x y).
  - pose proof (handle_click_status rnd b x y) as H.
    by destruct (handle_click rnd b x y).
Qed.

Lemma run_status (ops : list op) (b : board) :
  status_of (run ops b).1 = status_of b.
Proof.
  revert b. induction ops as [|o ops IH]; intros b; [done|].
  simpl. pose proof (step_status b o) as Hs.
  destruct (step b o) as [b1 r]. specialize (IH b1).
  destruct (run ops b1) as [b2 rs]. simpl in *. congruence.
Qed.




(** [check_win] counts with [num_mines], not with the mines on the board.
    The two differ where the grid has fewer squares outside the safe zone
    than mines were asked for: on a 3 x 3 board with five mines the first
    click, in the middle, places no mine and opens all nine squares, which
    are all the squares without a mine, and no win is reported. *)
Lemma check_win_short_of_mines :
  ∃ b' newly,
    handle_click [] (new_board 3 3 5) 1 1 = (b', Ret (ClickOpened newly false))
    ∧ size (mine_positions b') = 0%nat
    ∧ size (revealed b') = 9%nat
    ∧ width b' * height b' - Z.of_nat (size (mine_positions b')) = 9
    ∧ width b' * height b' - num_mines b' = 4.
Proof.
  eexists _, _. split; [vm_compute; reflexivity|].
  split_and!; vm_compute; reflexivity.
Qed.



(** * Further properties of the engine *)

(** ** How many mines are placed, and where *)

Lemma length_draw {A} (k : nat) (rnd : list nat) (pool : list A) :
  (k ≤ length pool)%nat → length (draw rnd pool k) = k.
Proof.
  revert rnd pool. induction k as [|k IH]; intros rnd pool Hk; [done|].
  simpl.
  destruct (lookup_lt_is_Some_2 pool (hd 0%nat rnd `mod` length pool)%nat)
    as [a Ha].
  { apply Nat.mod_upper_bound. lia. }
  rewrite Ha. simpl. f_equal. apply IH.
  rewrite length_delete by eauto. lia.
Qed.

Lemma NoDup_draw {A} (k : nat) (rnd : list nat) (pool : list A) :
  NoDup pool → NoDup (draw rnd pool k).
Proof.
  revert rnd pool. induction k as [|k IH]; intros rnd pool Hnd; [constructor|].
  simpl. set (i := (hd 0%nat rnd `mod` length pool)%nat).
  destruct (pool !! i) as [a|] eqn:Ha; [|constructor].
  assert (NoDup (a :: delete i pool)) as Hnd'.
  { rewrite delete_take_drop.
    rewrite <- (take_drop_middle pool i a Ha) in Hnd.
    apply NoDup_app in Hnd as (H1 & H2 & H3).
    apply NoDup_cons in H3 as [H3 H4].
    apply NoDup_cons. split.
    - intros [Hin|Hin]%elem_of_app; [|done].
      apply (H2 a Hin). left.
    - apply NoDup_app. split_and!; [done| |done].
      intros c Hc Hc'. apply (H2 c Hc). by right. }
  apply NoDup_cons in Hnd' as [Hna Hnd'].
  apply NoDup_cons. split; [|by apply IH].
  intros Hin. apply Hna. by apply draw_elem_of in Hin.
Qed.

Lemma bind_filter_cells (w h : Z) (safe : gset cell) :
  (x ← range w; y ← range h;
   if bool_decide ((x, y) ∉ safe) then [(x, y)] else [])
  = filter (λ c, c ∉ safe) (all_cells w h).
Proof.
  unfold all_cells.
  assert (∀ (x : Z) (ys : list Z),
            (y ← ys; if bool_decide ((x, y) ∉ safe) then [(x, y)] else [])
            = filter (λ c, c ∉ safe) (y ← ys; [(x, y)])) as Hrow.
  { intros x ys. induction ys as [|y ys IHy]; [done|].
    cbn [mbind list_bind app]. rewrite filter_cons.
    destruct (decide ((x, y) ∉ safe)) as [Hs|Hs].
    - rewrite bool_decide_eq_true_2 by done. simpl. f_equal. exact IHy.
    - rewrite bool_decide_eq_false_2 by done. simpl. exact IHy. }
  induction (range w) as [|x xs IH]; [done|].
  cbn [mbind list_bind]. rewrite filter_app. f_equal; [apply Hrow|exact IH].
Qed.

Lemma length_filter_unsafe (w h : Z) (safe : gset cell) :
  length (filter (λ c, c ∉ safe) (all_cells w h)) = size (grid_cells w h ∖ safe).
Proof.
  rewrite <- (size_list_to_set (C:=gset cell))
    by apply NoDup_filter, NoDup_all_cells.
  f_equal. apply set_eq. intros c.
  rewrite elem_of_list_to_set, list_elem_of_filter, elem_of_difference.
  unfold grid_cells. rewrite elem_of_list_to_set. tauto.
Qed.

Lemma place_mines_positions (rnd : list nat) (b : board) (x y : Z) :
  0 ≤ num_mines b →
  mine_positions (place_mines rnd b x y).1
  = list_to_set
      (draw rnd (filter (λ c, c ∉ safe_zone b x y) (all_cells (width b) (height b)))
         (Z.to_nat (Z.min (num_mines b)
            (Z.of_nat (size (grid_cells (width b) (height b) ∖ safe_zone b x y)))))).
Proof.
  intros Hn. unfold place_mines.
  change ({[(x, y)]} ∪ list_to_set (get_adjacent_squares b x y))
    with (safe_zone b x y).
  rewrite bind_filter_cells, length_filter_unsafe.
  unfold random_sample. rewrite length_filter_unsafe.
  replace ((_ <? 0) || _) with false; last first.
  { symmetry. apply orb_false_iff. rewrite !Z.ltb_ge. lia. }
  destruct (write_cells _ (mine_writes _)) as [g1 [[]|e|]]; [|done..].
  by destruct (write_cells g1 _) as [g2 out].
Qed.

(** X1: the number of mines placed is the requested number, or the number
    of squares outside the safe zone when this is smaller. *)
Theorem place_mines_count (rnd : list nat) (b : board) (x y : Z) :
  0 ≤ num_mines b →
  Z.of_nat (size (mine_positions (place_mines rnd b x y).1))
  = Z.min (num_mines b)
          (Z.of_nat (size (grid_cells (width b) (height b) ∖ safe_zone b x y))).
Proof.
  intros Hn. rewrite place_mines_positions by done.
  rewrite size_list_to_set.
  - rewrite length_draw; [lia|]. rewrite length_filter_unsafe. lia.
  - apply NoDup_draw, NoDup_filter, NoDup_all_cells.
Qed.

Lemma place_mines_count_witness :
  Z.of_nat (size (mine_positions (place_mines beginner_draws (new_board 9 9 10) 4 4).1))
  = Z.min (num_mines (new_board 9 9 10))
          (Z.of_nat (size (grid_cells (width (new_board 9 9 10))
                                      (height (new_board 9 9 10))
                           ∖ safe_zone (new_board 9 9 10) 4 4))).
Proof. apply place_mines_count. simpl. lia. Defined.

Lemma place_mines_consistent (rnd : list nat) (b : board) (x y : Z) :
  well_shaped b → 0 ≤ num_mines b →
  ∃ mines g,
    place_mines rnd b x y = (set_grid g (set_mine_positions mines b), Ret tt)
    ∧ grid_consistent (set_grid g (set_mine_positions mines b))
    ∧ mines ## safe_zone b x y.
Proof.
  intros Hshape Hn.
  destruct (place_mines_spec rnd b x y Hshape Hn) as (mines & g & Heq & Hg & Hm & Hget).
  exists mines, g. split; [done|]. split; [split_and!|].
  - done.
  - intros c Hc. by destruct (Hm c Hc) as [? _].
  - intros a d [Ha Hd]. simpl in *. by apply Hget.
  - intros c Hc Hs. destruct (Hm c Hc) as (_ & Hne & Hadj).
    unfold safe_zone in Hs.
    apply elem_of_union in Hs as [->%elem_of_singleton|Hs%elem_of_list_to_set]; done.
Qed.

(** X2: what [place_mines] changes and what it leaves.  On a well-shaped
    board with a mine count that is not negative, it changes the grid and
    the mine positions only; afterwards the grid is still [height] rows of
    [width] columns and agrees with the mines, and every mine lies inside
    the grid and outside the safe zone.  The grid it leaves does not depend
    on the grid it found: stale values are all overwritten. *)
Theorem place_mines_frame (rnd : list nat) (b : board) (x y : Z) :
  well_shaped b → 0 ≤ num_mines b →
  let b' := (place_mines rnd b x y).1 in
  b' = set_grid (grid b') (set_mine_positions (mine_positions b') b)
  ∧ grid_consistent b'
  ∧ mine_positions b' ## safe_zone b x y
  ∧ ∀ g, grid_shaped (width b) (height b) g →
         (place_mines rnd (set_grid g b) x y).1 = b'.
Proof.
  intros Hshape Hn. simpl.
  destruct (place_mines_consistent rnd b x y Hshape Hn) as (mines & g & Heq & Hc & Hs).
  rewrite Heq. simpl. split_and!; [done..|].
  intros g0 Hg0.
  destruct (place_mines_spec rnd (set_grid g0 b) x y Hg0 Hn)
    as (mines' & g' & Heq' & Hg' & _ & Hget').
  destruct (place_mines_spec rnd b x y Hshape Hn)
    as (mines'' & g'' & Heq'' & Hg'' & _ & Hget'').
  rewrite Heq'' in Heq. injection Heq as -> ->.
  pose proof (place_mines_positions rnd (set_grid g0 b) x y Hn) as Hp'.
  pose proof (place_mines_positions rnd b x y Hn) as Hp.
  rewrite Heq' in Hp'. rewrite Heq'' in Hp. simpl in Hp, Hp'.
  change (safe_zone (set_grid g0 b) x y) with (safe_zone b x y) in Hp'.
  rewrite <- Hp in Hp'. subst mines'. rewrite Heq'. simpl.
  unfold set_grid, set_mine_positions. simpl. f_equal.
  simpl in Hget', Hg'.
  pose proof Hg' as [Hl' Hr']. pose proof Hg'' as [Hl Hr].
  apply list_eq. intros j.
  destruct (decide (j < length g)%nat) as [Hj|Hj].
  - destruct (lookup_lt_is_Some_2 g j Hj) as [row Hrow].
    destruct (lookup_lt_is_Some_2 g' j) as [row' Hrow']; [lia|].
    rewrite Hrow, Hrow'. f_equal. apply list_eq. intros i.
    rewrite Forall_lookup in Hr, Hr'.
    pose proof (Hr _ _ Hrow) as Hlen. pose proof (Hr' _ _ Hrow') as Hlen'.
    destruct (decide (i < length row)%nat) as [Hi|Hi].
    + pose proof (Hget' (Z.of_nat i) (Z.of_nat j)) as H1.
      pose proof (Hget'' (Z.of_nat i) (Z.of_nat j)) as H2.
      rewrite (grid_get_inside (width b) (height b)) in H1 by (done || lia).
      rewrite (grid_get_inside (width b) (height b)) in H2 by (done || lia).
      rewrite !Nat2Z.id in H1, H2. rewrite Hrow' in H1. rewrite Hrow in H2.
      simpl in H1, H2. rewrite H1, H2 by lia. done.
    + rewrite !lookup_ge_None_2 by lia. done.
  - rewrite !lookup_ge_None_2 by lia. done.
Qed.

Lemma place_mines_frame_witness :
  let b' := (place_mines beginner_draws (new_board 9 9 10) 4 4).1 in
  b' = set_grid (grid b') (set_mine_positions (mine_positions b') (new_board 9 9 10))
  ∧ grid_consistent b'
  ∧ mine_positions b' ## safe_zone (new_board 9 9 10) 4 4
  ∧ ∀ g, grid_shaped (width (new_board 9 9 10)) (height (new_board 9 9 10)) g →
         (place_mines beginner_draws (set_grid g (new_board 9 9 10)) 4 4).1 = b'.
Proof.
  apply place_mines_frame.
  - split; [reflexivity|]. vm_compute. repeat constructor.
  - simpl. lia.
Defined.

(** X3: on a well-shaped board [place_mines] raises exactly when the mine
    count is negative; the exception is [ValueError], raised by
    [random.sample] after the mine positions have been cleared and before
    the grid is touched. *)
Theorem place_mines_raises (rnd : list nat) (b : board) (x y : Z) :
  well_shaped b →
  ((place_mines rnd b x y).2 = Ret tt ↔ 0 ≤ num_mines b)
  ∧ (num_mines b < 0 →
     place_mines rnd b x y = (set_mine_positions ∅ b, Exc ValueError)).
Proof.
  intros Hshape. split.
  - split.
    + intros Hret. destruct (decide (0 ≤ num_mines b)) as [|Hneg]; [done|].
      exfalso. unfold place_mines, random_sample in Hret.
      replace ((_ <? 0) || _) with true in Hret; [done|].
      symmetry. apply orb_true_iff. left. apply Z.ltb_lt. lia.
    + intros Hn. destruct (place_mines_spec rnd b x y Hshape Hn)
        as (mines & g & -> & _). done.
  - intros Hneg. unfold place_mines, random_sample.
    replace ((_ <? 0) || _) with true; [done|].
    symmetry. apply orb_true_iff. left. apply Z.ltb_lt. lia.
Qed.

Lemma place_mines_raises_witness :
  ((place_mines [] (new_board 3 3 (-2)) 1 1).2 = Ret tt
   ↔ 0 ≤ num_mines (new_board 3 3 (-2)))
  ∧ (num_mines (new_board 3 3 (-2)) < 0 →
     place_mines [] (new_board 3 3 (-2)) 1 1
     = (set_mine_positions ∅ (new_board 3 3 (-2)), Exc ValueError)).
Proof.
  apply place_mines_raises.
  split; [reflexivity|]. vm_compute. repeat constructor.
Defined.

(** ** What a reveal changes, on any board *)

Lemma visit_adjacent_frame (w h : Z) (g : list (list Z)) (fl old : gset cell)
    (adjs : list cell) (st : flood_state) :
  (∀ a, a ∈ adjs → 0 ≤ a.1 < w ∧ 0 ≤ a.2 < h) →
  let st' := (visit_adjacent g fl adjs st).1 in
  (fs_revealed st = old ∪ fs_newly st → fs_revealed st' = old ∪ fs_newly st')
  ∧ (fs_newly st ## old → fs_revealed st = old ∪ fs_newly st → fs_newly st' ## old)
  ∧ (∀ c, c ∈ fs_newly st' →
       c ∈ fs_newly st ∨ ((c ∉ fl) ∧ 0 ≤ c.1 < w ∧ 0 ≤ c.2 < h))
  ∧ fs_newly st ⊆ fs_newly st'.
Proof.
  revert st. induction adjs as [|adj rest IH]; intros st Hin; simpl.
  { split_and!; auto. }
  assert (∀ a, a ∈ rest → 0 ≤ a.1 < w ∧ 0 ≤ a.2 < h) as Hrest.
  { intros a Ha. apply Hin. by right. }
  destruct (bool_decide (adj ∉ fs_revealed st) && bool_decide (adj ∉ fl)) eqn:E;
    [|by apply IH].
  apply andb_true_iff in E as [Hrev%bool_decide_eq_true Hfl%bool_decide_eq_true].
  assert (0 ≤ adj.1 < w ∧ 0 ≤ adj.2 < h) as Hadj by (apply Hin; left).
  set (st1 := FloodState (fs_stack st) ({[adj]} ∪ fs_revealed st)
                         ({[adj]} ∪ fs_newly st)).
  assert ((fs_revealed st = old ∪ fs_newly st →
           fs_revealed st1 = old ∪ fs_newly st1)
          ∧ (fs_newly st ## old → fs_revealed st = old ∪ fs_newly st →
             fs_newly st1 ## old)
          ∧ (∀ c, c ∈ fs_newly st1 →
               c ∈ fs_newly st ∨ ((c ∉ fl) ∧ 0 ≤ c.1 < w ∧ 0 ≤ c.2 < h))
          ∧ fs_newly st ⊆ fs_newly st1)
    as (H1 & H2 & H3 & H4).
  { unfold st1. simpl. split_and!; [| | |intros c Hc; by apply elem_of_union_r].
    - intros ->. apply set_eq. intros c.
      rewrite !elem_of_union, elem_of_singleton. tauto.
    - intros Hd Heq c [->%elem_of_singleton|Hc]%elem_of_union Ho.
      + apply Hrev. rewrite Heq. by apply elem_of_union_l.
      + by apply (Hd c).
    - intros c [->%elem_of_singleton|Hc]%elem_of_union; [by right|by left]. }
  assert (∀ st2, fs_revealed st2 = fs_revealed st1 → fs_newly st2 = fs_newly st1 →
            let st' := (visit_adjacent g fl rest st2).1 in
            (fs_revealed st = old ∪ fs_newly st → fs_revealed st' = old ∪ fs_newly st')
            ∧ (fs_newly st ## old → fs_revealed st = old ∪ fs_newly st →
               fs_newly st' ## old)
            ∧ (∀ c, c ∈ fs_newly st' →
                 c ∈ fs_newly st ∨ ((c ∉ fl) ∧ 0 ≤ c.1 < w ∧ 0 ≤ c.2 < h))
            ∧ fs_newly st ⊆ fs_newly st')
    as Hnext.
  { intros st2 Hr2 Hn2. destruct (IH st2 Hrest) as (I1 & I2 & I3 & I4).
    rewrite Hr2, Hn2 in I1, I2. simpl. split_and!.
    - intros Heq. apply I1, H1, Heq.
    - intros Hd Heq. apply I2; [by apply H2|by apply H1].
    - intros c [Hc|Hc]%I3; [|by right]. rewrite Hn2 in Hc. by apply H3.
    - intros c Hc. apply I4. rewrite Hn2. by apply H4. }
  destruct (grid_get g adj.1 adj.2) as [v|]; [|simpl; split_and!; done].
  destruct (v =? 0); by apply Hnext.
Qed.

Lemma flood_frame (pop : list cell → option (cell * list cell)) (fuel : nat)
    (w h : Z) (g : list (list Z)) (fl old : gset cell) (st : flood_state) :
  let st' := (flood pop fuel w h g fl st).1 in
  (fs_revealed st = old ∪ fs_newly st → fs_revealed st' = old ∪ fs_newly st')
  ∧ (fs_newly st ## old → fs_revealed st = old ∪ fs_newly st → fs_newly st' ## old)
  ∧ (∀ c, c ∈ fs_newly st' →
       c ∈ fs_newly st ∨ ((c ∉ fl) ∧ 0 ≤ c.1 < w ∧ 0 ≤ c.2 < h))
  ∧ fs_newly st ⊆ fs_newly st'.
Proof.
  revert st. induction fuel as [|fuel IH]; intros st; simpl.
  { split_and!; auto. }
  destruct (pop (fs_stack st)) as [[curr stack']|]; [|simpl; split_and!; auto].
  pose proof (visit_adjacent_frame w h g fl old (adjacent_squares w h curr.1 curr.2)
                (FloodState stack' (fs_revealed st) (fs_newly st))
                (adjacent_in_grid w h curr.1 curr.2)) as Hv.
  destruct (visit_adjacent _ _ _ _) as [st1 out]. simpl in Hv.
  destruct Hv as (V1 & V2 & V3 & V4).
  destruct out as [[]|e|]; [|simpl; split_and!; done..].
  destruct (IH st1) as (I1 & I2 & I3 & I4). simpl. split_and!.
  - intros Heq. by apply I1, V1.
  - intros Hd Heq. apply I2; [by apply V2|by apply V1].
  - intros c [Hc|Hc]%I3; [by apply V3|by right].
  - intros c Hc. by apply I4, V4.
Qed.

(** X4: a reveal changes [revealed] only, and only by adding to it, on
    every board and whatever the outcome (also when it raises): the
    squares added were not revealed before, none of them is flagged, and
    each is the revealed coordinate itself or lies inside the grid.  When
    the call returns, the returned set is exactly the set of squares
    added, and it is empty only for a coordinate that was already revealed
    or is flagged. *)
Theorem reveal_square_frame (b : board) (x y : Z) :
  let b' := (reveal_square b x y).1 in
  b' = set_revealed (revealed b') b
  ∧ revealed b ⊆ revealed b'
  ∧ (∀ c, c ∈ revealed b' ∖ revealed b →
       (c ∉ flagged b) ∧ (c = (x, y) ∨ in_bounds b c.1 c.2))
  ∧ ∀ newly, (reveal_square b x y).2 = Ret newly →
      newly = revealed b' ∖ revealed b
      ∧ (newly = ∅ ↔ (x, y) ∈ revealed b ∨ (x, y) ∈ flagged b).
Proof.
  unfold reveal_square, reveal_with.
  destruct (decide ((x, y) ∈ revealed b)) as [Hr|Hr].
  { rewrite (bool_decide_eq_true_2 _ Hr). simpl. split_and!.
    - by destruct b.
    - done.
    - intros c [? ?]%elem_of_difference. done.
    - intros newly [= <-]. split; [|by split; [left|]].
      apply set_eq. intros c. rewrite elem_of_difference, elem_of_empty. tauto. }
  destruct (decide ((x, y) ∈ flagged b)) as [Hf|Hf].
  { rewrite (bool_decide_eq_true_2 ((x, y) ∈ flagged b) Hf), orb_true_r. simpl.
    split_and!.
    - by destruct b.
    - done.
    - intros c [? ?]%elem_of_difference. done.
    - intros newly [= <-]. split; [|by split; [right|]].
      apply set_eq. intros c. rewrite elem_of_difference, elem_of_empty. tauto. }
  rewrite !bool_decide_eq_false_2 by done. cbn [orb].
  assert (({[(x, y)]} ∪ revealed b) ∖ revealed b = ({[(x, y)]} : gset cell)) as Hone.
  { apply set_eq. intros c.
    rewrite elem_of_difference, elem_of_union, elem_of_singleton.
    split; [tauto|]. intros ->. tauto. }
  assert (({[(x, y)]} : gset cell) ≠ ∅) as Hne.
  { intros E. apply (f_equal (λ s : gset cell, (x, y) ∈ s)) in E. simpl in E.
    assert ((x, y) ∈ (∅ : gset cell)) as Hin
      by (rewrite <- E; by apply elem_of_singleton).
    by apply elem_of_empty in Hin. }
  assert (let b' := set_revealed ({[(x, y)]} ∪ revealed b) b in
          b' = set_revealed (revealed b') b
          ∧ revealed b ⊆ revealed b'
          ∧ (∀ c, c ∈ revealed b' ∖ revealed b →
               (c ∉ flagged b) ∧ (c = (x, y) ∨ in_bounds b c.1 c.2))) as Hsingle.
  { simpl. split_and!; [done| |].
    - intros c Hc. by apply elem_of_union_r.
    - intros c. rewrite Hone. intros ->%elem_of_singleton. split; [done|by left]. }
  destruct (grid_get (grid b) x y) as [v|].
  2:{ simpl in *. destruct Hsingle as (? & ? & ?). split_and!; done. }
  destruct (v =? 0).
  2:{ simpl in *. destruct Hsingle as (? & ? & ?). split_and!; [done..|].
      intros newly [= <-]. rewrite Hone. split; [done|]. split; [done|tauto]. }
  pose proof (flood_frame stack_pop (flood_budget b) (width b) (height b) (grid b)
                (flagged b) (revealed b)
                (FloodState [(x, y)] ({[(x, y)]} ∪ revealed b) {[(x, y)]})) as Hfl.
  destruct (flood _ _ _ _ _ _ _) as [st out]. simpl in Hfl |- *.
  destruct Hfl as (F1 & F2 & F3 & F4).
  assert (fs_revealed st = revealed b ∪ fs_newly st) as Hrev.
  { apply F1. apply set_eq. intros c. rewrite !elem_of_union. tauto. }
  assert (fs_newly st ## revealed b) as Hdis.
  { apply F2.
    - intros c ->%elem_of_singleton. done.
    - apply set_eq. intros c. rewrite !elem_of_union. tauto. }
  assert (fs_revealed st ∖ revealed b = fs_newly st) as Hdiff.
  { rewrite Hrev. apply set_eq. intros c.
    rewrite elem_of_difference, elem_of_union. split; [tauto|].
    intros Hc. split; [by right|]. intros Ho. by apply (Hdis c). }
  split_and!.
  - done.
  - rewrite Hrev. intros c Hc. by apply elem_of_union_l.
  - intros c. rewrite Hdiff. intros [->%elem_of_singleton|(? & ? & ?)]%F3.
    + split; [done|by left].
    + split; [done|]. right. done.
  - intros newly Hout. destruct out as [[]|e|]; [|done..].
    injection Hout as <-. rewrite Hdiff. split; [done|].
    split; [|tauto]. intros E. exfalso.
    assert ((x, y) ∈ fs_newly st) as Hin by (apply F4; by apply elem_of_singleton).
    rewrite E in Hin. by apply elem_of_empty in Hin.
Qed.

(** ** The flood never opens a mine *)

Lemma zero_no_adjacent_mine (b : board) (c n : cell) :
  grid_consistent b → in_bounds b c.1 c.2 → zero_at (grid b) c →
  n ∈ get_adjacent_squares b c.1 c.2 → n ∉ mine_positions b.
Proof.
  intros (Hshape & Hin & Hget) Hc Hz Hn Hm.
  unfold zero_at in Hz. rewrite Hget in Hz by done.
  rewrite <- surjective_pairing in Hz.
  destruct (decide (c ∈ mine_positions b)); [done|].
  injection Hz as Hz. unfold count_adjacent_mines in Hz.
  rewrite count_mines_filter in Hz.
  assert (n ∈ filter (λ c, c ∈ mine_positions b)
                     (adjacent_squares (width b) (height b) c.1 c.2)) as Hf.
  { apply list_elem_of_filter. done. }
  destruct (filter _ _); [by apply elem_of_nil in Hf|]. simpl in Hz. lia.
Qed.

Lemma flood_reach_no_mine (b : board) (start c : cell) :
  grid_consistent b → in_bounds b start.1 start.2 → start ∉ mine_positions b →
  flood_reach (width b) (height b) (grid b) (flagged b) (revealed b) start c →
  (c ∉ mine_positions b) ∧ in_bounds b c.1 c.2.
Proof.
  intros Hcons Hs Hm. induction 1 as [|c n Hc [IHm IHb] Hz Hn Ho Hf]; [done|].
  split.
  - by apply (zero_no_adjacent_mine b c n).
  - by apply adjacent_in_grid in Hn.
Qed.

Lemma reveal_with_guard (pop : list cell → option (cell * list cell))
    (b : board) (x y : Z) :
  (x, y) ∈ revealed b ∨ (x, y) ∈ flagged b → reveal_with pop b x y = (b, Ret ∅).
Proof.
  intros [H|H]; unfold reveal_with.
  - by rewrite (bool_decide_eq_true_2 _ H).
  - by rewrite (bool_decide_eq_true_2 ((x, y) ∈ flagged b) H), orb_true_r.
Qed.

Lemma set_revealed_same (b : board) : set_revealed (revealed b ∪ ∅) b = b.
Proof. destruct b. unfold set_revealed. simpl. by rewrite union_empty_r_L. Qed.

Lemma reveal_in_bounds_returns (b : board) (x y : Z) :
  well_shaped b → in_bounds b x y →
  ∃ newly,
    reveal_square b x y = (set_revealed (revealed b ∪ newly) b, Ret newly)
    ∧ ∀ c, c ∈ newly →
        (c = (x, y) ∧ grid_get (grid b) x y ≠ Some 0)
        ∨ (grid_get (grid b) x y = Some 0
           ∧ flood_reach (width b) (height b) (grid b) (flagged b) (revealed b)
                         (x, y) c).
Proof.
  intros Hshape [Hx Hy].
  destruct (decide ((x, y) ∈ revealed b ∨ (x, y) ∈ flagged b)) as [H|H].
  { exists ∅. unfold reveal_square. rewrite reveal_with_guard by done.
    rewrite set_revealed_same.
    split; [done|]. intros c Hc. by apply elem_of_empty in Hc. }
  assert (((x, y) ∉ revealed b) ∧ ((x, y) ∉ flagged b)) as [Hr Hf] by tauto.
  destruct (grid_get_is_Some _ _ _ x y Hshape Hx Hy) as [v Hv].
  destruct (decide (v = 0)) as [->|Hnz].
  - destruct (reveal_with_flood stack_pop b x y stack_pop_ok Hshape Hr Hf Hv)
      as (newly & Hs & Hnewly).
    exists newly. unfold reveal_square. rewrite Hs. split; [done|].
    intros c Hc. right. split; [done|]. by apply Hnewly.
  - exists {[(x, y)]}. unfold reveal_square, reveal_with.
    rewrite !bool_decide_eq_false_2 by done. cbn [orb]. rewrite Hv.
    apply Z.eqb_neq in Hnz as Hnz'. rewrite Hnz'.
    rewrite (union_comm_L (revealed b)). split; [done|].
    intros c ->%elem_of_singleton. left. split; [done|]. congruence.
Qed.

Lemma reveal_consistent (b : board) (x y : Z) :
  grid_consistent b → in_bounds b x y → (x, y) ∉ mine_positions b →
  ∃ newly,
    reveal_square b x y = (set_revealed (revealed b ∪ newly) b, Ret newly)
    ∧ ∀ c, c ∈ newly → (c ∉ mine_positions b) ∧ in_bounds b c.1 c.2.
Proof.
  intros Hcons Hin Hm.
  destruct (reveal_in_bounds_returns b x y (proj1 Hcons) Hin) as (newly & Hout & Hn).
  exists newly. split; [done|]. intros c Hc.
  destruct (Hn c Hc) as [[-> _]|[_ Hreach]]; [done|].
  by apply (flood_reach_no_mine b (x, y) c).
Qed.

(** X5: on a board whose grid agrees with its mines, revealing an
    in-bounds square that is not a mine returns, and no square it opens is
    a mine; all of them lie inside the grid. *)
Theorem reveal_opens_no_mine (b : board) (x y : Z) :
  grid_consistent b → in_bounds b x y → is_mine b x y = false →
  ∃ newly, (reveal_square b x y).2 = Ret newly
    ∧ ∀ c, c ∈ newly → is_mine b c.1 c.2 = false ∧ in_bounds b c.1 c.2.
Proof.
  intros Hcons Hin Hm%bool_decide_eq_false.
  destruct (reveal_consistent b x y Hcons Hin Hm) as (newly & Hout & Hn).
  exists newly. rewrite Hout. split; [done|]. intros c Hc.
  unfold is_mine. rewrite <- surjective_pairing.
  destruct (Hn c Hc) as [? ?]. split; [by apply bool_decide_eq_false_2|done].
Qed.

Lemma reveal_opens_no_mine_witness :
  ∃ newly, (reveal_square beginner_board 4 4).2 = Ret newly
    ∧ ∀ c, c ∈ newly →
        is_mine beginner_board c.1 c.2 = false ∧ in_bounds beginner_board c.1 c.2.
Proof.
  apply reveal_opens_no_mine.
  - destruct (place_mines_consistent beginner_draws (new_board 9 9 10) 4 4)
      as (mines & g & Heq & Hc & _).
    + split; [reflexivity|]. vm_compute. repeat constructor.
    + simpl. lia.
    + unfold beginner_board. rewrite Heq. exact Hc.
  - unfold in_bounds.
    assert (width beginner_board = 9 ∧ height beginner_board = 9) as [-> ->]
      by (split; vm_compute; reflexivity).
    lia.
  - vm_compute. reflexivity.
Defined.

(** ** The first click *)




(** ** The mine counter *)

Lemma toggle_flag_counter (b : board) (x y : Z) :
  mines_remaining b = num_mines b - Z.of_nat (size (flagged b)) →
  mines_remaining (toggle_flag b x y).1
  = num_mines (toggle_flag b x y).1 - Z.of_nat (size (flagged (toggle_flag b x y).1)).
Proof.
  intros Hinv. unfold toggle_flag.
  destruct (bool_decide ((x, y) ∈ revealed b)); [done|].
  destruct (decide ((x, y) ∈ flagged b)) as [Hf|Hf].
  - rewrite bool_decide_eq_true_2 by done. simpl.
    rewrite size_difference by (by apply singleton_subseteq_l).
    rewrite size_singleton.
    assert (size (flagged b) ≠ 0%nat).
    { intros E. apply size_empty_inv in E. by apply (E (x, y)) in Hf. }
    lia.
  - rewrite bool_decide_eq_false_2 by done. simpl.
    rewrite size_union by (by apply disjoint_singleton_l).
    rewrite size_singleton. lia.
Qed.

Lemma step_counter (b : board) (o : op) :
  mines_remaining b = num_mines b - Z.of_nat (size (flagged b)) →
  mines_remaining (step b o).1
  = num_mines (step b o).1 - Z.of_nat (size (flagged (step b o).1)).
Proof.
  intros Hinv. destruct o as [x y|x y|rnd x y|rnd x y]; simpl.
  - pose proof (reveal_with_unchanged stack_pop b x y) as H.
    fold (reveal_square b x y) in H.
    destruct (reveal_square b x y) as [b' r]. simpl in *. by rewrite H.
  - pose proof (toggle_flag_counter b x y Hinv) as H.
    by destruct (toggle_flag b x y).
  - pose proof (place_mines_unchanged rnd b x y) as H.
    destruct (place_mines rnd b x y) as [b' r]. simpl in *. by rewrite H.
  - destruct (handle_click_unchanged rnd b x y) as (r & f & g & m & H).
    destruct (handle_click rnd b x y) as [b' res]. simpl in *. by rewrite H.
Qed.

Lemma step_num_mines (b : board) (o : op) : num_mines (step b o).1 = num_mines b.
Proof.
  destruct o as [x y|x y|rnd x y|rnd x y]; simpl.
  - pose proof (reveal_with_unchanged stack_pop b x y) as H.
    fold (reveal_square b x y) in H.
    destruct (reveal_square b x y) as [b' r]. simpl in *. by rewrite H.
  - unfold toggle_flag. destruct (bool_decide _); [done|].
    by destruct (bool_decide _).
  - pose proof (place_mines_unchanged rnd b x y) as H.
    destruct (place_mines rnd b x y) as [b' r]. simpl in *. by rewrite H.
  - destruct (handle_click_unchanged rnd b x y) as (r & f & g & m & H).
    destruct (handle_click rnd b x y) as [b' res]. simpl in *. by rewrite H.
Qed.

(** X7: in every game, whatever is called and in whatever order, the mine
    counter is the mine count minus the number of flags:
    [mines_remaining = num_mines - |flagged|], and [num_mines] stays what
    the constructor was given. *)
Theorem mines_remaining_counts_flags (w h n : Z) (ops : list op) :
  mines_remaining (run ops (new_board w h n)).1
  = n - Z.of_nat (size (flagged (run ops (new_board w h n)).1))
  ∧ num_mines (run ops (new_board w h n)).1 = n.
Proof.
  assert (∀ b, mines_remaining b = num_mines b - Z.of_nat (size (flagged b)) →
               mines_remaining (run ops b).1
               = num_mines (run ops b).1 - Z.of_nat (size (flagged (run ops b).1))
               ∧ num_mines (run ops b).1 = num_mines b) as Hrun.
  { induction ops as [|o ops IH]; intros b Hinv; [done|].
    simpl. pose proof (step_counter b o Hinv) as Hs.
    pose proof (step_num_mines b o) as Hn.
    destruct (step b o) as [b1 r]. simpl in *.
    destruct (IH b1 Hs) as [H1 H2].
    destruct (run ops b1) as [b2 rs]. simpl in *. split; [done|congruence]. }
  destruct (Hrun (new_board w h n)) as [H1 H2].
  { change (n = n - Z.of_nat (size (∅ : gset cell))). rewrite size_empty. lia. }
  change (num_mines (new_board w h n)) with n in H2. rewrite H2 in H1. done.
Qed.

(** ** Whole games *)

Lemma place_mines_negative (rnd : list nat) (b : board) (x y : Z) :
  num_mines b < 0 →
  place_mines rnd b x y = (set_mine_positions ∅ b, Exc ValueError).
Proof.
  intros Hneg. unfold place_mines, random_sample.
  replace ((_ <? 0) || _) with true; [done|].
  symmetry. apply orb_true_iff. left. apply Z.ltb_lt. lia.
Qed.

Lemma place_mines_shape (rnd : list nat) (b : board) (x y : Z) :
  well_shaped b →
  well_shaped (place_mines rnd b x y).1
  ∧ width (place_mines rnd b x y).1 = width b
  ∧ height (place_mines rnd b x y).1 = height b.
Proof.
  intros Hshape. destruct (decide (0 ≤ num_mines b)) as [Hn|Hn].
  - destruct (place_mines_spec rnd b x y Hshape Hn) as (mines & g & -> & Hg & _).
    done.
  - rewrite place_mines_negative by lia. done.
Qed.

Lemma reveal_with_shape (pop : list cell → option (cell * list cell))
    (b : board) (x y : Z) :
  well_shaped b →
  well_shaped (reveal_with pop b x y).1
  ∧ width (reveal_with pop b x y).1 = width b
  ∧ height (reveal_with pop b x y).1 = height b.
Proof. intros Hshape. rewrite reveal_with_unchanged. done. Qed.

Lemma handle_click_shape (rnd : list nat) (b : board) (x y : Z) :
  well_shaped b →
  well_shaped (handle_click rnd b x y).1
  ∧ width (handle_click rnd b x y).1 = width b
  ∧ height (handle_click rnd b x y).1 = height b.
Proof.
  intros Hshape. unfold handle_click.
  destruct (bool_decide ((x, y) ∈ flagged b)); [done|].
  assert (∃ b1 placed,
    (if first_move b
     then match place_mines rnd b x y with
          | (b', Ret _) => (set_first_move false b', Ret tt)
          | (b', out) => (b', out)
          end
     else (b, Ret tt)) = (b1, placed)
    ∧ well_shaped b1 ∧ width b1 = width b ∧ height b1 = height b)
    as (b1 & placed & -> & Hs1 & Hw1 & Hh1).
  { destruct (first_move b); [|by eauto 10].
    pose proof (place_mines_shape rnd b x y Hshape) as Hp.
    destruct (place_mines rnd b x y) as [b' [[]|e|]]; eauto 10. }
  destruct placed as [[]|e|]; [|done..].
  destruct (is_mine b1 x y); [done|].
  pose proof (reveal_with_shape stack_pop b1 x y Hs1) as Hr.
  fold (reveal_square b1 x y) in Hr.
  destruct (reveal_square b1 x y) as [b2 [newly|e|]]; simpl in *;
    destruct Hr as (? & ? & ?); split_and!; congruence.
Qed.

Lemma step_shape (b : board) (o : op) :
  well_shaped b →
  well_shaped (step b o).1
  ∧ width (step b o).1 = width b ∧ height (step b o).1 = height b.
Proof.
  intros Hshape. destruct o as [x y|x y|rnd x y|rnd x y]; simpl.
  - pose proof (reveal_with_shape stack_pop b x y Hshape) as H.
    fold (reveal_square b x y) in H. by destruct (reveal_square b x y).
  - unfold toggle_flag. destruct (bool_decide _); [done|].
    by destruct (bool_decide _).
  - pose proof (place_mines_shape rnd b x y Hshape) as H.
    by destruct (place_mines rnd b x y).
  - pose proof (handle_click_shape rnd b x y Hshape) as H.
    by destruct (handle_click rnd b x y).
Qed.

(** X8: the grid keeps its shape.  From a well-shaped board, every
    sequence of calls, with any coordinates and also when calls raise,
    leaves a board whose grid is still [height] rows of [width] columns,
    with the same [width] and [height]. *)
Theorem run_keeps_shape (ops : list op) (b : board) :
  well_shaped b →
  well_shaped (run ops b).1
  ∧ width (run ops b).1 = width b ∧ height (run ops b).1 = height b.
Proof.
  revert b. induction ops as [|o ops IH]; intros b Hshape; [done|].
  simpl. destruct (step_shape b o Hshape) as (Hs & Hw & Hh).
  destruct (step b o) as [b1 r]. simpl in *.
  destruct (IH b1 Hs) as (Hs' & Hw' & Hh').
  destruct (run ops b1) as [b2 rs]. simpl in *.
  split_and!; [done|congruence..].
Qed.

Lemma run_keeps_shape_witness :
  well_shaped (run [OpClick beginner_draws 4 4; OpToggleFlag 0 0; OpReveal 20 20]
                   (new_board 9 9 10)).1
  ∧ width (run [OpClick beginner_draws 4 4; OpToggleFlag 0 0; OpReveal 20 20]
               (new_board 9 9 10)).1 = width (new_board 9 9 10)
  ∧ height (run [OpClick beginner_draws 4 4; OpToggleFlag 0 0; OpReveal 20 20]
                (new_board 9 9 10)).1 = height (new_board 9 9 10).
Proof.
  apply run_keeps_shape.
  split; [reflexivity|]. vm_compute. repeat constructor.
Defined.

Lemma step_returns (b : board) (o : op) :
  well_shaped b → 0 ≤ num_mines b → op_in_bounds (width b) (height b) o →
  returned (step b o).2.
Proof.
  intros Hshape Hn Hin. destruct o as [x y|x y|rnd x y|rnd x y]; simpl in *.
  - destruct (reveal_in_bounds_returns b x y Hshape Hin) as (newly & -> & _). done.
  - by destruct (toggle_flag b x y).
  - destruct (place_mines_spec rnd b x y Hshape Hn) as (mines & g & -> & _). done.
  - unfold handle_click.
    destruct (bool_decide ((x, y) ∈ flagged b)); [done|].
    assert (∃ b1,
      (if first_move b
       then match place_mines rnd b x y with
            | (b', Ret _) => (set_first_move false b', Ret tt)
            | (b', out) => (b', out)
            end
       else (b, Ret tt)) = (b1, Ret tt)
      ∧ well_shaped b1 ∧ in_bounds b1 x y) as (b1 & -> & Hs1 & Hin1).
    { destruct (first_move b); [|by eauto].
      destruct (place_mines_spec rnd b x y Hshape Hn) as (mines & g & -> & Hg & _).
      eexists. split; [done|]. done. }
    destruct (is_mine b1 x y); [done|].
    destruct (reveal_in_bounds_returns b1 x y Hs1 Hin1) as (newly & -> & _). done.
Qed.

(** X9: regular play never raises.  On a freshly constructed board with a
    mine count that is not negative, every call of a sequence whose
    coordinates all lie inside the grid returns: no reveal, flag toggle,
    mine placement or click raises an exception. *)
Theorem in_bounds_play_returns (w h n : Z) (ops : list op) :
  0 ≤ n → Forall (op_in_bounds w h) ops →
  Forall returned (run ops (new_board w h n)).2.
Proof.
  intros Hn Hops.
  assert (∀ b, well_shaped b → width b = w → height b = h → num_mines b = n →
               Forall returned (run ops b).2) as Hrun.
  { induction Hops as [|o ops Ho Hops IH]; intros b Hs Hw Hh Hm; [constructor|].
    simpl. pose proof (step_returns b o Hs) as Hr.
    rewrite Hw, Hh, Hm in Hr. specialize (Hr Hn Ho).
    destruct (step_shape b o Hs) as (Hs1 & Hw1 & Hh1).
    pose proof (step_num_mines b o) as Hm1.
    destruct (step b o) as [b1 r]. simpl in *.
    specialize (IH b1 Hs1). destruct (run ops b1) as [b2 rs]. simpl in *.
    constructor; [done|]. apply IH; congruence. }
  apply Hrun; [apply new_board_well_shaped|done..].
Qed.

Lemma in_bounds_play_returns_witness :
  Forall returned
    (run [OpToggleFlag 0 0; OpClick beginner_draws 4 4; OpReveal 8 8]
         (new_board 9 9 10)).2.
Proof.
  apply in_bounds_play_returns; [lia|].
  repeat constructor; simpl; lia.
Defined.

Lemma toggle_flag_play (b : board) (x y : Z) :
  play_invariant b → play_invariant (toggle_flag b x y).1.
Proof.
  intros Hinv. unfold toggle_flag.
  destruct (bool_decide ((x, y) ∈ revealed b)); [done|].
  by destruct (bool_decide ((x, y) ∈ flagged b)).
Qed.

Lemma reveal_play (b : board) (x y : Z) :
  grid_consistent b → in_bounds b x y → (x, y) ∉ mine_positions b →
  first_move b = false →
  revealed b ## mine_positions b →
  (∀ c, c ∈ revealed b → in_bounds b c.1 c.2) →
  play_invariant (reveal_square b x y).1.
Proof.
  intros Hcons Hin Hm Hfm Hdis Hrev.
  destruct (reveal_consistent b x y Hcons Hin Hm) as (newly & -> & Hnewly).
  unfold play_invariant. simpl. split_and!.
  - apply Hcons.
  - rewrite Hfm. done.
  - intros _. exact Hcons.
  - intros c [Hc|Hc]%elem_of_union Hcm.
    + by apply (Hdis c).
    + by destruct (Hnewly c Hc).
  - intros c [Hc|Hc]%elem_of_union.
    + by apply Hrev.
    + by destruct (Hnewly c Hc).
Qed.

Lemma handle_click_play (rnd : list nat) (b : board) (x y : Z) :
  play_invariant b → in_bounds b x y →
  play_invariant (handle_click rnd b x y).1.
Proof.
  intros (Hshape & Hfirst & Hlater & Hdis & Hrev) Hin. unfold handle_click.
  destruct (bool_decide ((x, y) ∈ flagged b)); [done|].
  destruct (first_move b) eqn:Hfm.
  - specialize (Hfirst eq_refl).
    destruct (decide (0 ≤ num_mines b)) as [Hn|Hn].
    + destruct (place_mines_consistent rnd b x y Hshape Hn)
        as (mines & g & -> & Hcons & Hsafe).
      set (b1 := set_first_move false (set_grid g (set_mine_positions mines b))).
      assert ((x, y) ∉ mine_positions b1) as Hxm.
      { intros Hm. apply (Hsafe _ Hm). by apply elem_of_union_l, elem_of_singleton. }
      rewrite (bool_decide_eq_false_2 _ Hxm : is_mine b1 x y = false).
      assert (play_invariant (reveal_square b1 x y).1) as Hplay.
      { apply reveal_play; [exact Hcons|exact Hin|exact Hxm|reflexivity| |].
        - simpl. rewrite Hfirst. intros c Hc. by apply elem_of_empty in Hc.
        - simpl. rewrite Hfirst. intros c Hc. by apply elem_of_empty in Hc. }
      by destruct (reveal_square b1 x y) as [b2 [newly|e|]].
    + rewrite place_mines_negative by lia.
      unfold play_invariant. simpl. split_and!.
      * done.
      * done.
      * congruence.
      * rewrite Hfirst. intros c Hc. by apply elem_of_empty in Hc.
      * done.
  - specialize (Hlater eq_refl).
    destruct (is_mine b x y) eqn:Hm.
    + simpl. unfold play_invariant. split_and!; [done|congruence|done..].
    + apply bool_decide_eq_false in Hm.
      assert (play_invariant (reveal_square b x y).1) as Hplay
        by by apply reveal_play.
      by destruct (reveal_square b x y) as [b2 [newly|e|]].
Qed.

Lemma run_play (w h : Z) (ops : list op) (b : board) :
  play_invariant b → width b = w → height b = h →
  Forall (window_op w h) ops →
  play_invariant (run ops b).1.
Proof.
  intros Hinv Hw Hh Hops. revert b Hinv Hw Hh.
  induction Hops as [|o ops Ho Hops IH]; intros b Hinv Hw Hh; [done|].
  simpl. destruct (step_shape b o (proj1 Hinv)) as (_ & Hw1 & Hh1).
  assert (play_invariant (step b o).1) as Hs.
  { destruct o as [x y|x y|rnd x y|rnd x y]; simpl in *; [done| |done|].
    - pose proof (toggle_flag_play b x y Hinv). by destruct (toggle_flag b x y).
    - assert (in_bounds b x y) as Hin by (unfold in_bounds; by rewrite Hw, Hh).
      pose proof (handle_click_play rnd b x y Hinv Hin).
      by destruct (handle_click rnd b x y). }
  destruct (step b o) as [b1 r]. simpl in *.
  specialize (IH b1 Hs). destruct (run ops b1) as [b2 rs]. simpl in *.
  apply IH; congruence.
Qed.

(** X10: a game played in the window never shows a mine as revealed.
    After every sequence of left clicks and flag toggles on squares of the
    grid, starting from a freshly constructed board, no revealed square is
    a mine and every revealed square lies inside the grid; once the first
    move is over, the grid agrees with the mines. *)
Theorem window_play_reveals_no_mine (w h n : Z) (ops : list op) :
  Forall (window_op w h) ops →
  let b := (run ops (new_board w h n)).1 in
  revealed b ## mine_positions b
  ∧ (∀ c, c ∈ revealed b → in_bounds b c.1 c.2)
  ∧ (first_move b = false → grid_consistent b).
Proof.
  intros Hops.
  destruct (run_play w h ops (new_board w h n)) as (_ & _ & H3 & H4 & H5);
    [|done..].
  unfold play_invariant. simpl. split_and!.
  - apply initialize_grid_shaped.
  - done.
  - done.
  - intros c Hc. by apply elem_of_empty in Hc.
  - intros c Hc. by apply elem_of_empty in Hc.
Qed.

Lemma window_play_reveals_no_mine_witness :
  let b := (run [OpToggleFlag 0 0; OpClick beginner_draws 4 4; OpClick [] 2 0]
                (new_board 9 9 10)).1 in
  revealed b ## mine_positions b
  ∧ (∀ c, c ∈ revealed b → in_bounds b c.1 c.2)
  ∧ (first_move b = false → grid_consistent b).
Proof.
  apply window_play_reveals_no_mine.
  repeat constructor; simpl; lia.
Defined.

(** ** The neighbour relation *)

(** X11: the neighbour relation is symmetric and irreflexive.  For an
    in-bounds square, a square is among its neighbours exactly when it is
    in bounds and has the square among its own neighbours; no square is
    its own neighbour; and [get_adjacent_squares] lists no square twice. *)
Theorem adjacent_symmetric (b : board) (x y : Z) :
  in_bounds b x y →
  (∀ c, c ∈ get_adjacent_squares b x y
        ↔ in_bounds b c.1 c.2 ∧ (x, y) ∈ get_adjacent_squares b c.1 c.2)
  ∧ ((x, y) ∉ get_adjacent_squares b x y)
  ∧ NoDup (get_adjacent_squares b x y).
Proof.
  intros Hin. unfold get_adjacent_squares. split_and!.
  - intros c. rewrite !elem_of_adjacent, !in_grid_spec, !touching_spec.
    unfold in_bounds in *. destruct c as [a d]. cbn [fst snd].
    assert ((a, d) ≠ (x, y) ↔ (x, y) ≠ (a, d)) as Hsym by (split; congruence).
    rewrite Hsym. clear Hsym. intuition lia.
  - rewrite elem_of_adjacent, touching_spec. intros (_ & _ & _ & Hne). done.
  - apply NoDup_adjacent.
Qed.

Lemma adjacent_symmetric_witness :
  (∀ c, c ∈ get_adjacent_squares (new_board 9 9 10) 0 8
        ↔ in_bounds (new_board 9 9 10) c.1 c.2
          ∧ (0, 8) ∈ get_adjacent_squares (new_board 9 9 10) c.1 c.2)
  ∧ ((0, 8) ∉ get_adjacent_squares (new_board 9 9 10) 0 8)
  ∧ NoDup (get_adjacent_squares (new_board 9 9 10) 0 8).
Proof. apply adjacent_symmetric. split; simpl; lia. Defined.

(** ** Winning *)

Lemma size_non_mines (w h : Z) (mines : gset cell) :
  0 ≤ w → 0 ≤ h → mines ⊆ grid_cells w h →
  Z.of_nat (size (grid_cells w h ∖ mines)) = w * h - Z.of_nat (size mines).
Proof.
  intros Hw Hh Hsub. rewrite size_difference by done.
  pose proof (subseteq_size _ _ Hsub) as Hle.
  rewrite size_grid_cells in *. lia.
Qed.

Lemma check_win_complete (b : board) :
  0 ≤ width b → 0 ≤ height b →
  mine_positions b ⊆ grid_cells (width b) (height b) →
  Z.of_nat (size (mine_positions b)) = num_mines b →
  revealed b ⊆ grid_cells (width b) (height b) ∖ mine_positions b →
  check_win b = true
  ↔ revealed b = grid_cells (width b) (height b) ∖ mine_positions b.
Proof.
  intros Hw Hh Hm Hn Hr. unfold check_win. rewrite bool_decide_eq_true.
  rewrite <- Hn, <- size_non_mines by done. split.
  - intros Hsize. apply set_subseteq_size_eq; [done|]. lia.
  - intros ->. done.
Qed.

(** X12: [check_win] is the test that every square without a mine is
    revealed, provided the board has as many mines as [num_mines] says, all
    of them inside the grid, and only squares of the grid that are not
    mines are revealed. *)
Theorem check_win_all_revealed (b : board) :
  0 ≤ width b → 0 ≤ height b →
  mine_positions b ⊆ grid_cells (width b) (height b) →
  Z.of_nat (size (mine_positions b)) = num_mines b →
  revealed b ⊆ grid_cells (width b) (height b) ∖ mine_positions b →
  check_win b = true
  ↔ revealed b = grid_cells (width b) (height b) ∖ mine_positions b.
Proof. apply check_win_complete. Qed.

Lemma check_win_all_revealed_witness :
  check_win (set_revealed (grid_cells 9 9 ∖ mine_positions beginner_game) beginner_game)
  = true
  ↔ revealed (set_revealed (grid_cells 9 9 ∖ mine_positions beginner_game)
                beginner_game)
    = grid_cells (width (set_revealed (grid_cells 9 9 ∖ mine_positions beginner_game)
                           beginner_game))
                 (height (set_revealed (grid_cells 9 9 ∖ mine_positions beginner_game)
                            beginner_game))
      ∖ mine_positions (set_revealed (grid_cells 9 9 ∖ mine_positions beginner_game)
                          beginner_game).
Proof.
  apply check_win_all_revealed.
  - vm_compute. discriminate.
  - vm_compute. discriminate.
  - apply (bool_decide_unpack _). vm_compute. exact I.
  - vm_compute. reflexivity.
  - apply (bool_decide_unpack _). vm_compute. exact I.
Defined.

(** ** Difficulties *)

Lemma size_safe_zone (b : board) (x y : Z) : (size (safe_zone b x y) ≤ 9)%nat.
Proof.
  unfold safe_zone.
  rewrite (size_union_alt {[(x, y)]} (list_to_set (get_adjacent_squares b x y))).
  rewrite size_singleton.
  pose proof (subseteq_size
    ((list_to_set (get_adjacent_squares b x y) : gset cell) ∖ {[(x, y)]})
    (list_to_set (get_adjacent_squares b x y))) as Hle.
  assert ((list_to_set (get_adjacent_squares b x y) : gset cell) ∖ {[(x, y)]}
          ⊆ list_to_set (get_adjacent_squares b x y)) as Hsub.
  { intros c Hc. by apply elem_of_difference in Hc as [Hc _]. }
  specialize (Hle Hsub).
  rewrite size_list_to_set in Hle by apply NoDup_adjacent.
  pose proof (length_adjacent (width b) (height b) x y).
  unfold get_adjacent_squares in *. lia.
Qed.

Lemma size_unsafe_bound (b : board) (x y : Z) :
  0 ≤ width b → 0 ≤ height b →
  width b * height b - 9
  ≤ Z.of_nat (size (grid_cells (width b) (height b) ∖ safe_zone b x y)).
Proof.
  intros Hw Hh. rewrite size_difference_alt.
  pose proof (subseteq_size
    (grid_cells (width b) (height b) ∩ safe_zone b x y) (safe_zone b x y)) as Hle.
  assert (grid_cells (width b) (height b) ∩ safe_zone b x y ⊆ safe_zone b x y) as Hsub.
  { intros c Hc. by apply elem_of_intersection in Hc as [_ Hc]. }
  specialize (Hle Hsub). pose proof (size_safe_zone b x y).
  pose proof (subseteq_size
    (grid_cells (width b) (height b) ∩ safe_zone b x y)
    (grid_cells (width b) (height b))) as Hle2.
  assert (grid_cells (width b) (height b) ∩ safe_zone b x y
          ⊆ grid_cells (width b) (height b)) as Hsub2.
  { intros c Hc. by apply elem_of_intersection in Hc as [Hc _]. }
  specialize (Hle2 Hsub2).
  rewrite size_grid_cells in *. lia.
Qed.

Lemma place_mines_size (rnd : list nat) (b : board) (x y : Z) :
  0 ≤ width b → 0 ≤ height b →
  0 ≤ num_mines b ≤ width b * height b - 9 →
  Z.of_nat (size (mine_positions (place_mines rnd b x y).1)) = num_mines b.
Proof.
  intros Hw Hh Hn. rewrite place_mines_positions by lia.
  pose proof (size_unsafe_bound b x y Hw Hh) as Hbound.
  rewrite size_list_to_set.
  - rewrite length_draw; [lia|]. rewrite length_filter_unsafe. lia.
  - apply NoDup_draw, NoDup_filter, NoDup_all_cells.
Qed.

Lemma difficulty_bounds (w h mines : Z) :
  (w, h, mines) ∈ preset_difficulties ∨ custom_difficulty_ok w h mines = true →
  0 ≤ w ∧ 0 ≤ h ∧ 0 ≤ mines ≤ w * h - 9.
Proof.
  intros [Hp|Hc].
  - unfold preset_difficulties in Hp.
    repeat (apply elem_of_cons in Hp as [[= -> -> ->]|Hp]; [lia|]).
    by apply elem_of_nil in Hp.
  - unfold custom_difficulty_ok in Hc.
    repeat (apply andb_true_iff in Hc as [Hc ?]). lia.
Qed.

(** X13: no difficulty the window offers runs out of room for its mines.
    For Easy, Medium and Hard, and for every custom difficulty that
    [validate_and_set] accepts, the first click, wherever it falls, places
    exactly the requested number of mines, so that the threshold
    [width * height - num_mines] used by [check_win] is the number of
    squares without a mine. *)
Theorem difficulty_places_all_mines (rnd : list nat) (w h mines x y : Z) :
  (w, h, mines) ∈ preset_difficulties ∨ custom_difficulty_ok w h mines = true →
  let b' := (place_mines rnd (new_board w h mines) x y).1 in
  Z.of_nat (size (mine_positions b')) = mines
  ∧ width b' * height b' - num_mines b'
    = Z.of_nat (size (grid_cells w h ∖ mine_positions b')).
Proof.
  intros (Hw & Hh & Hm)%difficulty_bounds. simpl.
  pose proof (place_mines_size rnd (new_board w h mines) x y Hw Hh Hm) as Hsize.
  destruct (place_mines_consistent rnd (new_board w h mines) x y)
    as (ms & g & Heq & (_ & Hin & _) & _).
  { apply new_board_well_shaped. }
  { simpl. lia. }
  rewrite Heq in *. simpl in *. split; [done|].
  rewrite size_non_mines, Hsize; [done..|].
  intros c Hc. apply elem_of_grid_cells. by apply Hin.
Qed.

Lemma difficulty_places_all_mines_witness :
  let b' := (place_mines beginner_draws (new_board 30 16 99) 0 0).1 in
  Z.of_nat (size (mine_positions b')) = 99
  ∧ width b' * height b' - num_mines b'
    = Z.of_nat (size (grid_cells 30 16 ∖ mine_positions b')).
Proof.
  apply difficulty_places_all_mines. left.
  unfold preset_difficulties. do 2 right. left.
Defined.

(** ** Win detection in a whole game *)

Lemma handle_click_opened (rnd : list nat) (b : board) (x y : Z)
    (newly : gset cell) (win : bool) :
  (handle_click rnd b x y).2 = Ret (ClickOpened newly win) →
  first_move (handle_click rnd b x y).1 = false
  ∧ win = check_win (handle_click rnd b x y).1.
Proof.
  unfold handle_click.
  destruct (bool_decide ((x, y) ∈ flagged b)); [done|].
  assert (∃ b1 placed,
    (if first_move b
     then match place_mines rnd b x y with
          | (b', Ret _) => (set_first_move false b', Ret tt)
          | (b', out) => (b', out)
          end
     else (b, Ret tt)) = (b1, placed)
    ∧ (placed = Ret tt → first_move b1 = false)) as (b1 & placed & -> & Hfm).
  { destruct (first_move b) eqn:E; [|by exists b, (Ret tt)].
    destruct (place_mines rnd b x y) as [b' [[]|e|]].
    - by exists (set_first_move false b'), (Ret tt).
    - by exists b', (Exc e).
    - by exists b', NoFuel. }
  destruct placed as [[]|e|]; [|done..].
  destruct (is_mine b1 x y); [done|].
  pose proof (reveal_with_unchanged stack_pop b1 x y) as Hr.
  fold (reveal_square b1 x y) in Hr.
  destruct (reveal_square b1 x y) as [b2 [newly'|e|]]; [|done..].
  simpl in *. intros [= <- <-]. split; [|done].
  rewrite Hr. simpl. by apply Hfm.
Qed.

Lemma handle_click_mine_count (rnd : list nat) (b : board) (x y : Z) :
  well_shaped b → 0 ≤ width b → 0 ≤ height b →
  0 ≤ num_mines b ≤ width b * height b - 9 →
  (first_move b = false → Z.of_nat (size (mine_positions b)) = num_mines b) →
  first_move (handle_click rnd b x y).1 = false →
  Z.of_nat (size (mine_positions (handle_click rnd b x y).1)) = num_mines b.
Proof.
  intros Hshape Hw Hh Hn Hinv. unfold handle_click.
  destruct (bool_decide ((x, y) ∈ flagged b)); [done|].
  assert (∃ b1 placed,
    (if first_move b
     then match place_mines rnd b x y with
          | (b', Ret _) => (set_first_move false b', Ret tt)
          | (b', out) => (b', out)
          end
     else (b, Ret tt)) = (b1, placed)
    ∧ (first_move b1 = false →
       Z.of_nat (size (mine_positions b1)) = num_mines b))
    as (b1 & placed & -> & Hb1).
  { destruct (first_move b) eqn:E;
      [|exists b, (Ret tt); split; [done|intros _; by apply Hinv]].
    pose proof (place_mines_size rnd b x y Hw Hh Hn) as Hsize.
    destruct (place_mines_spec rnd b x y Hshape (proj1 Hn)) as (ms & g & Heq & _).
    rewrite Heq in *. eexists _, _. split; [done|]. done. }
  destruct placed as [[]|e|]; [|done..].
  destruct (is_mine b1 x y); [done|].
  pose proof (reveal_with_unchanged stack_pop b1 x y) as Hr.
  fold (reveal_square b1 x y) in Hr.
  destruct (reveal_square b1 x y) as [b2 [newly|e|]]; simpl in *;
    rewrite Hr; simpl; done.
Qed.

Lemma step_mine_count (w h n : Z) (b : board) (o : op) :
  0 ≤ w → 0 ≤ h → 0 ≤ n ≤ w * h - 9 →
  well_shaped b → width b = w → height b = h → num_mines b = n →
  (first_move b = false → Z.of_nat (size (mine_positions b)) = n) →
  window_op w h o →
  first_move (step b o).1 = false →
  Z.of_nat (size (mine_positions (step b o).1)) = n.
Proof.
  intros Hw Hh Hn Hshape Ew Eh En Hinv Ho. subst w h n.
  destruct o as [x y|x y|rnd x y|rnd x y]; simpl in *; [done| |done|].
  - unfold toggle_flag. destruct (bool_decide _); [done|].
    by destruct (bool_decide _).
  - pose proof (handle_click_mine_count rnd b x y Hshape Hw Hh Hn Hinv) as H.
    by destruct (handle_click rnd b x y).
Qed.

Lemma run_mine_count (w h n : Z) (ops : list op) (b : board) :
  0 ≤ w → 0 ≤ h → 0 ≤ n ≤ w * h - 9 →
  Forall (window_op w h) ops →
  well_shaped b → width b = w → height b = h → num_mines b = n →
  (first_move b = false → Z.of_nat (size (mine_positions b)) = n) →
  well_shaped (run ops b).1 ∧ width (run ops b).1 = w ∧ height (run ops b).1 = h
  ∧ num_mines (run ops b).1 = n
  ∧ (first_move (run ops b).1 = false →
     Z.of_nat (size (mine_positions (run ops b).1)) = n).
Proof.
  intros Hw Hh Hn Hops. revert b.
  induction Hops as [|o ops Ho Hops IH]; intros b Hshape Ew Eh En Hinv; [done|].
  simpl.
  pose proof (step_mine_count w h n b o Hw Hh Hn Hshape Ew Eh En Hinv Ho) as Hc.
  destruct (step_shape b o Hshape) as (Hs1 & Hw1 & Hh1).
  pose proof (step_num_mines b o) as Hn1.
  destruct (step b o) as [b1 r]. simpl in *.
  specialize (IH b1 Hs1). destruct (run ops b1) as [b2 rs]. simpl in *.
  apply IH; [congruence..|done].
Qed.

(** X14: win detection is right in every game the window lets one play.
    With any of the offered difficulties, after any sequence of left
    clicks and flag toggles on squares of the grid, a further click that
    opens squares reports a win exactly when the revealed squares are all
    the squares of the grid that hold no mine. *)
Theorem window_win_detection (w h n : Z) (ops : list op) (rnd : list nat)
    (x y : Z) :
  (w, h, n) ∈ preset_difficulties ∨ custom_difficulty_ok w h n = true →
  Forall (window_op w h) ops → 0 ≤ x < w ∧ 0 ≤ y < h →
  let b := (run ops (new_board w h n)).1 in
  ∀ newly win,
    (handle_click rnd b x y).2 = Ret (ClickOpened newly win) →
    (win = true
     ↔ revealed (handle_click rnd b x y).1
       = grid_cells w h ∖ mine_positions (handle_click rnd b x y).1).
Proof.
  intros (Hw & Hh & Hn)%difficulty_bounds Hops Hxy. simpl.
  intros newly win Hout.
  pose proof (run_play w h ops (new_board w h n)) as Hplay.
  destruct (run_mine_count w h n ops (new_board w h n) Hw Hh Hn Hops)
    as (Hs & Ew & Eh & En & Hcount); [apply new_board_well_shaped|done..|].
  set (b := (run ops (new_board w h n)).1) in *.
  assert (play_invariant b) as Hinv.
  { apply Hplay; [|done..]. unfold play_invariant. simpl. split_and!.
    - apply initialize_grid_shaped.
    - done.
    - done.
    - intros c Hc. by apply elem_of_empty in Hc.
    - intros c Hc. by apply elem_of_empty in Hc. }
  assert (in_bounds b x y) as Hin by (unfold in_bounds; by rewrite Ew, Eh).
  destruct (handle_click_opened rnd b x y newly win Hout) as [Hfm ->].
  pose proof (handle_click_play rnd b x y Hinv Hin) as (_ & _ & Hcons & Hdis & Hrev).
  specialize (Hcons Hfm).
  destruct (handle_click_shape rnd b x y Hs) as (_ & Hw' & Hh').
  pose proof (handle_click_mine_count rnd b x y Hs) as Hc'.
  rewrite Ew, Eh, En in Hc'. specialize (Hc' Hw Hh Hn Hcount Hfm).
  destruct (handle_click_unchanged rnd b x y) as (r0 & f0 & g0 & m0 & Heq).
  assert (num_mines (handle_click rnd b x y).1 = n) as Hn' by (by rewrite Heq).
  rewrite check_win_complete.
  - by rewrite Hw', Hh', Ew, Eh.
  - lia.
  - lia.
  - intros c Hc. apply elem_of_grid_cells. destruct Hcons as (_ & Hm & _).
    by apply Hm.
  - lia.
  - intros c Hc. apply elem_of_difference. split.
    + apply elem_of_grid_cells. by apply Hrev.
    + intros Hm. by apply (Hdis c).
Qed.

Lemma window_win_detection_witness :
  ∃ newly win,
    (handle_click beginner_draws (run [OpToggleFlag 0 0] (new_board 9 9 10)).1 4 4).2
    = Ret (ClickOpened newly win)
    ∧ (win = true
       ↔ revealed (handle_click beginner_draws
                     (run [OpToggleFlag 0 0] (new_board 9 9 10)).1 4 4).1
         = grid_cells 9 9
           ∖ mine_positions (handle_click beginner_draws
                               (run [OpToggleFlag 0 0] (new_board 9 9 10)).1 4 4).1).
Proof.
  eexists _, _. split.
  - vm_compute. reflexivity.
  - eapply (window_win_detection 9 9 10 [OpToggleFlag 0 0] beginner_draws 4 4).
    + left. unfold preset_difficulties. left.
    + repeat constructor; simpl; lia.
    + lia.
    + vm_compute. reflexivity.
Defined.

(** * The high-score table *)

(** ** The sort is the stable ascending sort *)

Lemma insert_by_time_perm (e : score_entry) (l : list score_entry) :
  insert_by_time e l ≡ₚ e :: l.
Proof.
  induction l as [|x r IH]; [done|]. simpl.
  destruct (se_time e <? se_time x); [done|].
  rewrite IH. apply Permutation_swap.
Qed.

Lemma insert_by_time_sorted (e : score_entry) (l : list score_entry) :
  StronglySorted by_time l → StronglySorted by_time (insert_by_time e l).
Proof.
  induction 1 as [|x r Hr IH Hx]; simpl.
  - repeat constructor.
  - destruct (se_time e <? se_time x) eqn:E.
    + apply Z.ltb_lt in E. constructor; [by constructor|].
      constructor; [unfold by_time; lia|].
      eapply Forall_impl; [exact Hx|]. unfold by_time. intros; simpl in *. lia.
    + apply Z.ltb_ge in E. constructor; [done|].
      rewrite insert_by_time_perm. constructor; [done|done].
Qed.

Lemma sort_by_time_snoc (l : list score_entry) (e : score_entry) :
  sort_by_time (l ++ [e]) = insert_by_time e (sort_by_time l).
Proof. unfold sort_by_time. by rewrite foldl_app. Qed.

Lemma sort_by_time_sorted (l : list score_entry) :
  StronglySorted by_time (sort_by_time l).
Proof.
  induction l as [|e l IH] using rev_ind; [constructor|].
  rewrite sort_by_time_snoc. by apply insert_by_time_sorted.
Qed.

Lemma sort_by_time_perm (l : list score_entry) : sort_by_time l ≡ₚ l.
Proof.
  induction l as [|e l IH] using rev_ind; [done|].
  rewrite sort_by_time_snoc, insert_by_time_perm, IH.
  by rewrite Permutation_app_comm.
Qed.

Lemma filter_time_none (t : Z) (l : list score_entry) :
  Forall (λ x, se_time x ≠ t) l → filter (λ x, se_time x = t) l = [].
Proof.
  induction 1 as [|x r Hx Hr IH]; [done|].
  rewrite filter_cons. by destruct (decide (se_time x = t)).
Qed.

Lemma insert_by_time_stable (t : Z) (e : score_entry) (l : list score_entry) :
  StronglySorted by_time l →
  filter (λ x, se_time x = t) (insert_by_time e l)
  = filter (λ x, se_time x = t) l ++ filter (λ x, se_time x = t) [e].
Proof.
  induction 1 as [|x r Hr IH Hx]; [done|]. simpl.
  destruct (se_time e <? se_time x) eqn:E.
  - apply Z.ltb_lt in E. rewrite (filter_cons _ e), (filter_cons _ e), filter_nil.
    destruct (decide (se_time e = t)) as [Ht|Ht]; [|by rewrite app_nil_r].
    assert (filter (λ x, se_time x = t) (x :: r) = []) as ->; [|done].
    apply filter_time_none. constructor.
    + lia.
    + eapply Forall_impl; [exact Hx|]. unfold by_time. intros; simpl in *. lia.
  - rewrite !(filter_cons _ x). destruct (decide (se_time x = t)).
    + simpl. f_equal. exact IH.
    + exact IH.
Qed.

Lemma sort_by_time_stable (t : Z) (l : list score_entry) :
  filter (λ x, se_time x = t) (sort_by_time l) = filter (λ x, se_time x = t) l.
Proof.
  induction l as [|e l IH] using rev_ind; [done|].
  rewrite sort_by_time_snoc, insert_by_time_stable by apply sort_by_time_sorted.
  by rewrite IH, filter_app.
Qed.

Lemma insert_by_time_last (e : score_entry) (l : list score_entry) :
  Forall (λ x, se_time x ≤ se_time e) l → insert_by_time e l = l ++ [e].
Proof.
  induction 1 as [|x r Hx Hr IH]; [done|]. simpl.
  replace (se_time e <? se_time x) with false by (symmetry; apply Z.ltb_ge; lia).
  by rewrite IH.
Qed.

Lemma sort_by_time_sorted_id (l : list score_entry) :
  StronglySorted by_time l → sort_by_time l = l.
Proof.
  induction l as [|e l IH] using rev_ind; [done|].
  intros Hs. rewrite sort_by_time_snoc.
  apply StronglySorted_app in Hs as (Hle & Hl & _).
  rewrite IH by done. apply insert_by_time_last.
  apply Forall_forall. intros x Hx. apply (Hle x e Hx). by left.
Qed.

Lemma insert_by_time_take (k : nat) (e : score_entry) (l : list score_entry) :
  Forall (λ x, se_time x ≤ se_time e) (take k l) → (k ≤ length l)%nat →
  take k (insert_by_time e l) = take k l.
Proof.
  revert k. induction l as [|x r IH]; intros k Hk Hlen.
  - simpl in Hlen. by replace k with 0%nat by lia.
  - destruct k as [|k]; [done|]. simpl in Hk, Hlen |- *.
    apply Forall_cons in Hk as [Hx Hk].
    replace (se_time e <? se_time x) with false by (symmetry; apply Z.ltb_ge; lia).
    simpl. f_equal. apply IH; [done|lia].
Qed.

Lemma insert_by_time_before (k : nat) (e x : score_entry) (l : list score_entry) :
  l !! k = Some x → se_time e < se_time x →
  e ∈ take (S k) (insert_by_time e l).
Proof.
  revert k. induction l as [|z r IH]; intros k Hk Hlt; [done|].
  simpl. destruct (se_time e <? se_time z) eqn:E; [left|].
  destruct k as [|k].
  - simpl in Hk. injection Hk as ->. apply Z.ltb_ge in E. lia.
  - simpl in Hk. right. by apply IH.
Qed.

(** ** Adding a score *)

Lemma add_score_kept (scores : gmap string (list score_entry))
    (difficulty : string) (time : Z) (board_size : Z * Z) (mines : Z)
    (date : string) :
  let e := ScoreEntry time date
             (pretty board_size.1 +:+ "x" +:+ pretty board_size.2) mines in
  let r := add_score scores difficulty time board_size mines date in
  get_scores r.1 difficulty
  = take 10 (sort_by_time (get_scores scores difficulty ++ [e]))
  ∧ r.2 = bool_decide (e ∈ get_scores r.1 difficulty)
  ∧ ∀ d, d ≠ difficulty → get_scores r.1 d = get_scores scores d.
Proof.
  simpl. unfold add_score, get_scores.
  destruct (scores !! difficulty) as [l|] eqn:E; simpl.
  - rewrite lookup_insert_eq, E. simpl. split_and!; [done..|].
    intros d Hd. by rewrite lookup_insert_ne.
  - rewrite !lookup_insert_eq. simpl. split_and!; [done..|].
    intros d Hd. by rewrite !lookup_insert_ne.
Qed.

(** X15: after [add_score] the table of the difficulty is in ascending
    order of time, holds at most ten entries, each of them an entry that
    was there before or the new one, and among entries of equal time the
    earlier ones come first; the tables of the other difficulties are
    untouched; the returned boolean tells whether an entry equal to the new
    one is in the table. *)
Theorem add_score_table (scores : gmap string (list score_entry))
    (difficulty : string) (time : Z) (board_size : Z * Z) (mines : Z)
    (date : string) :
  let e := ScoreEntry time date
             (pretty board_size.1 +:+ "x" +:+ pretty board_size.2) mines in
  let r := add_score scores difficulty time board_size mines date in
  StronglySorted by_time (get_scores r.1 difficulty)
  ∧ (length (get_scores r.1 difficulty) ≤ 10)%nat
  ∧ (∀ x, x ∈ get_scores r.1 difficulty → x ∈ get_scores scores difficulty ∨ x = e)
  ∧ (∀ t, filter (λ x, se_time x = t) (get_scores r.1 difficulty)
          `prefix_of` filter (λ x, se_time x = t) (get_scores scores difficulty ++ [e]))
  ∧ (∀ d, d ≠ difficulty → get_scores r.1 d = get_scores scores d)
  ∧ (r.2 = true ↔ e ∈ get_scores r.1 difficulty).
Proof.
  intros e r.
  destruct (add_score_kept scores difficulty time board_size mines date)
    as (Hkept & Hret & Hother).
  fold e r in Hkept, Hret, Hother. rewrite Hret, Hkept. split_and!.
  - pose proof (sort_by_time_sorted (get_scores scores difficulty ++ [e])) as Hs.
    rewrite <- (take_drop 10 (sort_by_time _)) in Hs.
    by apply StronglySorted_app in Hs as (_ & Hs & _).
  - rewrite length_take. lia.
  - intros x Hx. apply elem_of_take in Hx as (i & Hi & _).
    apply list_elem_of_lookup_2 in Hi as Hx.
    rewrite sort_by_time_perm in Hx.
    apply elem_of_app in Hx as [?|Hx]; [by left|].
    apply list_elem_of_singleton in Hx. by right.
  - intros t. rewrite <- (sort_by_time_stable t (get_scores scores difficulty ++ [e])).
    rewrite <- (take_drop 10 (sort_by_time (get_scores scores difficulty ++ [e]))) at 2.
    rewrite filter_app. by apply prefix_app_r.
  - exact Hother.
  - apply bool_decide_eq_true.
Qed.

(** X16: while the table of a difficulty holds fewer than ten entries,
    every new score is a high score: [add_score] returns [True] and the
    table becomes the old entries together with the new one. *)
Theorem add_score_room (scores : gmap string (list score_entry))
    (difficulty : string) (time : Z) (board_size : Z * Z) (mines : Z)
    (date : string) :
  (length (get_scores scores difficulty) < 10)%nat →
  let e := ScoreEntry time date
             (pretty board_size.1 +:+ "x" +:+ pretty board_size.2) mines in
  let r := add_score scores difficulty time board_size mines date in
  r.2 = true ∧ get_scores r.1 difficulty ≡ₚ e :: get_scores scores difficulty.
Proof.
  intros Hlen e r.
  destruct (add_score_kept scores difficulty time board_size mines date)
    as (Hkept & Hret & _).
  fold e r in Hkept, Hret.
  assert (get_scores r.1 difficulty
          = sort_by_time (get_scores scores difficulty ++ [e])) as Hall.
  { rewrite Hkept. apply take_ge.
    rewrite sort_by_time_perm, length_app. simpl. lia. }
  rewrite Hret, Hall. split.
  - apply bool_decide_eq_true. rewrite sort_by_time_perm.
    apply elem_of_app. right. by left.
  - rewrite sort_by_time_perm. by rewrite Permutation_app_comm.
Qed.

Lemma add_score_room_witness :
  let e := ScoreEntry 42 "2024-01-01 10:00" (pretty (9, 9).1 +:+ "x" +:+ pretty (9, 9).2) 10 in
  let r := add_score ∅ "Easy" 42 (9, 9) 10 "2024-01-01 10:00" in
  r.2 = true ∧ get_scores r.1 "Easy" ≡ₚ e :: get_scores ∅ "Easy".
Proof. apply add_score_room. apply Nat.ltb_lt. vm_compute. reflexivity. Defined.

(** X17: on a full table in ascending order, a new score enters only by
    beating the tenth entry.  If its time is smaller than the tenth time,
    [add_score] returns [True].  If it is not smaller (a tie included), the
    table is left as its first ten entries and the new entry is dropped;
    [True] is then returned only when an entry equal to the new one (same
    time, date, board and mines) was already among these ten. *)
Theorem add_score_full (scores : gmap string (list score_entry))
    (difficulty : string) (time : Z) (board_size : Z * Z) (mines : Z)
    (date : string) (tenth : score_entry) :
  StronglySorted by_time (get_scores scores difficulty) →
  get_scores scores difficulty !! 9%nat = Some tenth →
  let e := ScoreEntry time date
             (pretty board_size.1 +:+ "x" +:+ pretty board_size.2) mines in
  let r := add_score scores difficulty time board_size mines date in
  (time < se_time tenth → r.2 = true)
  ∧ (se_time tenth ≤ time →
     get_scores r.1 difficulty = take 10 (get_scores scores difficulty)
     ∧ r.2 = bool_decide (e ∈ take 10 (get_scores scores difficulty))).
Proof.
  intros Hsorted Htenth e r.
  destruct (add_score_kept scores difficulty time board_size mines date)
    as (Hkept & Hret & _).
  fold e r in Hkept, Hret.
  rewrite sort_by_time_snoc, sort_by_time_sorted_id in Hkept by done.
  split.
  - intros Hlt. rewrite Hret, Hkept. apply bool_decide_eq_true.
    by apply (insert_by_time_before 9 e tenth).
  - intros Hle.
    assert (take 10 (insert_by_time e (get_scores scores difficulty))
            = take 10 (get_scores scores difficulty)) as Htake.
    { apply insert_by_time_take.
      - apply Forall_forall. intros x Hx.
        apply list_elem_of_lookup in Hx as [i Hi].
        pose proof (lookup_lt_Some _ _ _ Hi) as Hi10. rewrite length_take in Hi10.
        rewrite lookup_take_lt in Hi by lia.
        change (se_time e) with time.
        destruct (decide (i = 9%nat)) as [->|Hne].
        + rewrite Htenth in Hi. injection Hi as <-. done.
        + assert (by_time x tenth); [|unfold by_time in *; lia].
          rewrite <- (take_drop_middle _ _ _ Htenth) in Hsorted.
          apply StronglySorted_app in Hsorted as (Hord & _ & _).
          apply Hord; [|left].
          apply list_elem_of_lookup. exists i. rewrite lookup_take_lt by lia. done.
      - apply lookup_lt_Some in Htenth. lia. }
    rewrite Hret, Hkept, Htake. done.
Qed.

Lemma add_score_full_witness :
  let old := (λ t, ScoreEntry t "d" "9x9" 10) <$> [1; 2; 3; 4; 5; 6; 7; 8; 9; 10] in
  let scores : gmap string (list score_entry) := {["Easy" := old]} in
  let e := ScoreEntry 10 "2024-01-01 10:00" (pretty (9, 9).1 +:+ "x" +:+ pretty (9, 9).2) 10 in
  let r := add_score scores "Easy" 10 (9, 9) 10 "2024-01-01 10:00" in
  (10 < se_time (ScoreEntry 10 "d" "9x9" 10) → r.2 = true)
  ∧ (se_time (ScoreEntry 10 "d" "9x9" 10) ≤ 10 →
     get_scores r.1 "Easy" = take 10 (get_scores scores "Easy")
     ∧ r.2 = bool_decide (e ∈ take 10 (get_scores scores "Easy"))).
Proof.
  apply (add_score_full {["Easy" := (λ t, ScoreEntry t "d" "9x9" 10)
                                     <$> [1; 2; 3; 4; 5; 6; 7; 8; 9; 10]]}
           "Easy" 10 (9, 9) 10 "2024-01-01 10:00" (ScoreEntry 10 "d" "9x9" 10)).
  - vm_compute. repeat constructor; discriminate.
  - reflexivity.
Defined.
